(** * POTD-Tracker: the streak and statistics engine of [src/app/page.tsx]

    A shallow embedding of the completion recorder ([markComplete],
    [markIncomplete]) and of the streak engine
    ([recalculateStatsFromHistory]) of the [PotdTracker] component, with
    the React state ([problems], [stats]) passed explicitly.

    JavaScript numbers that only ever hold integers are [Z]; a number
    that may be [NaN] (the time value of an invalid [Date]) is
    [option Z] with [None] for [NaN]; an optional string field is
    [option string] with [None] for [undefined].  The [Date] object
    and [Array.prototype.sort] are those of the host: two interfaces,
    [JSDate] and [JSArray], the second with what ECMA-262 says of
    every engine. *)

From Stdlib Require Import ZArith List String Ascii Bool Lia.
From Stdlib Require Import Sorted Permutation.
From Stdlib Require Import DecimalString DecimalZ DecimalNat DecimalPos.
Import ListNotations.

Open Scope Z_scope.

(** ** Interfaces *)

(** [interface Problem] *)
Record Problem := mkProblem {
  id : string;
  title : string;
  url : string;
  platform : string;
  completed : bool;
  completedDate : option string
}.

(** [interface Stats] *)
Record Stats := mkStats {
  currentStreak : Z;
  longestStreak : Z;
  totalCompleted : Z;
  lastCompletedDate : option string
}.

(** The two [useState] cells the handlers read and write. *)
Record State := mkState {
  problems : list Problem;
  stats : Stats
}.

(** [useState<Stats>({ currentStreak: 0, longestStreak: 0, totalCompleted: 0 })] *)
Definition initialStats : Stats :=
  {| currentStreak := 0; longestStreak := 0; totalCompleted := 0;
     lastCompletedDate := None |}.

(** ** The [Date] object of the host

    The handlers use four things of the ECMAScript [Date]:
    [new Date(s).getTime()], [new Date(t).toDateString()],
    [d.setDate(d.getDate() - 1)] and the clock [new Date()].  The first
    three are the fields of [JSDate]; every reading of the clock is an
    explicit argument (milliseconds since the epoch) of the handler that
    takes it. *)
Class JSDate := {
  (** [new Date(s).getTime()]; [None] is [NaN] (Invalid Date) *)
  getTime : string -> option Z;
  (** [new Date(t).toDateString()] for a time value [t] *)
  toDateString : Z -> string;
  (** time value of [d] after [d.setDate(d.getDate() - 1)], from that of [d] *)
  minusOneDay : Z -> Z
}.

(** [1000 * 60 * 60 * 24] *)
Definition msPerDay : Z := 1000 * 60 * 60 * 24.

(** Truthiness of an optional string: [undefined] and the empty string
    are falsy. *)
Definition truthy (s : option string) : bool :=
  match s with
  | Some s => negb (s =? "")%string
  | None => false
  end.

(** Arithmetic and comparisons on numbers that may be [NaN]. *)
Definition numSub (a b : option Z) : option Z :=
  match a, b with
  | Some x, Some y => Some (x - y)
  | _, _ => None
  end.

(** [Math.round(x / msPerDay)]: nearest integer, ties towards +infinity. *)
Definition roundDays (x : option Z) : option Z :=
  option_map (fun d => (2 * d + msPerDay) / (2 * msPerDay)) x.

(** [Math.floor(x / msPerDay)] *)
Definition floorDays (x : option Z) : option Z :=
  option_map (fun d => d / msPerDay) x.

(** [x === k] and [x > k]; both are false on [NaN]. *)
Definition numEq (x : option Z) (k : Z) : bool :=
  match x with Some v => v =? k | None => false end.

Definition numGt (x : option Z) (k : Z) : bool :=
  match x with Some v => k <? v | None => false end.

(** ** [Array.prototype.sort] of the host

    ECMA-262 fixes the result of [sort] when the comparator is a
    consistent comparator for the elements: they come out in ascending
    order, those the comparator takes for equal in the order they had
    (the sort is stable).  When the comparator is not consistent, as
    one that returns [NaN] is not, the order is left to the
    implementation; the array still holds the same elements. *)

(** The stable sort, written as an insertion sort from the right: an
    element moves past exactly the elements it is strictly greater
    than. *)
Fixpoint insertStable {A : Type} (comparefn : A -> A -> option Z)
  (x : A) (l : list A) : list A :=
  match l with
  | [] => [x]
  | y :: l' =>
      if numGt (comparefn x y) 0 then y :: insertStable comparefn x l'
      else x :: y :: l'
  end.

Definition stableSort {A : Type} (comparefn : A -> A -> option Z)
  (l : list A) : list A :=
  fold_right (insertStable comparefn) [] l.

(** A comparator that returns a number, never [NaN], on the elements
    of [l], with the sign that the numbers [key] gives them call for,
    is a consistent comparator for them. *)
Definition orderedByKey {A : Type} (comparefn : A -> A -> option Z)
  (key : A -> Z) (l : list A) : Prop :=
  forall a b, In a l -> In b l ->
    exists v, comparefn a b = Some v /\ Z.sgn v = Z.sgn (key a - key b).

Class JSArray := {
  (** [l.sort(comparefn)] *)
  sort : forall A : Type, (A -> A -> option Z) -> list A -> list A;
  (** the same elements, whatever the comparator *)
  sort_permutation :
    forall (A : Type) (comparefn : A -> A -> option Z) (l : list A),
      Permutation (sort A comparefn l) l;
  (** sorted and stable when the comparator is consistent *)
  sort_consistent :
    forall (A : Type) (comparefn : A -> A -> option Z) (key : A -> Z)
           (l : list A),
      orderedByKey comparefn key l ->
      sort A comparefn l = stableSort comparefn l
}.

Arguments sort {JSArray} {A} comparefn l.

(** [{ ...p, completed: true, completedDate: today }] *)
Definition setCompleted (p : Problem) (today : string) : Problem :=
  {| id := id p; title := title p; url := url p; platform := platform p;
     completed := true; completedDate := Some today |}.

(** [{ ...p, completed: false, completedDate: undefined }] *)
Definition setIncomplete (p : Problem) : Problem :=
  {| id := id p; title := title p; url := url p; platform := platform p;
     completed := false; completedDate := None |}.

Section CoreLogic.

Context {rt : JSDate} {engine : JSArray}.

(** [new Date(p.completedDate!).getTime()] *)
Definition timeOf (p : Problem) : option Z :=
  match completedDate p with
  | Some s => getTime s
  | None => None
  end.

(** [new Date(s).toDateString()], which is the string Invalid Date
    when [s] does not parse. *)
Definition reformat (s : string) : string :=
  match getTime s with
  | Some t => toDateString t
  | None => "Invalid Date"%string
  end.

(** The comparator handed to [sort]. *)
Definition compareFn (a b : Problem) : option Z :=
  numSub (timeOf a) (timeOf b).

(** [p => p.completed && p.completedDate] *)
Definition isCompleted (p : Problem) : bool :=
  completed p && truthy (completedDate p).

(** [completed.sort((a, b) => new Date(a.completedDate!).getTime() -
    new Date(b.completedDate!).getTime())] *)
Definition sortByDate (l : list Problem) : list Problem :=
  sort compareFn l.

(** One turn of the [for] loop of [recalculateStatsFromHistory]:
    the new [currentStreak] from the previous and the current element. *)
Definition streakStep (prev cur : Problem) (streak : Z) : Z :=
  let diffTime := numSub (timeOf cur) (timeOf prev) in
  let diffDays := roundDays diffTime in
  if numEq diffDays 1 then streak + 1
  else if numGt diffDays 1 then 1
  else streak.

(** The [for (let i = 1; i < completed.length; i++)] loop, from
    [completed[i - 1]] and the elements still to visit; it returns the
    final [(currentStreak, longestStreak)]. *)
Fixpoint streakWalk (prev : Problem) (rest : list Problem)
  (streak longest : Z) : Z * Z :=
  match rest with
  | [] => (streak, longest)
  | cur :: rest' =>
      let streak := streakStep prev cur streak in
      let longest := if longest <? streak then streak else longest in
      streakWalk cur rest' streak longest
  end.

(** [recalculateStatsFromHistory(problemList)], reading [stats] and the
    clock [now], returning the argument of [setStats]. *)
Definition recalculateStatsFromHistory
  (stats : Stats) (problemList : list Problem) (now : Z) : Stats :=
  let completed := sortByDate (filter isCompleted problemList) in
  match completed with
  | [] =>
      {| currentStreak := 0;
         longestStreak := longestStreak stats;
         totalCompleted := 0;
         lastCompletedDate := None |}
  | first :: rest =>
      let '(streak, longest) := streakWalk first rest 1 1 in
      let lastCompleted := last rest first in
      let diffTimeFromToday := numSub (Some now) (timeOf lastCompleted) in
      let diffDaysFromToday := floorDays diffTimeFromToday in
      let streak := if numGt diffDaysFromToday 1 then 0 else streak in
      {| totalCompleted := Z.of_nat (List.length completed);
         currentStreak := streak;
         longestStreak := Z.max (longestStreak stats) longest;
         lastCompletedDate := completedDate lastCompleted |}
  end.

(** The incremental streak of [markComplete]: [newCurrentStreak] from
    [stats], the string [today] and the second reading [now'] of the
    clock (the one [yesterday] is made from). *)
Definition newCurrentStreak (s : Stats) (today : string) (now' : Z) : Z :=
  match lastCompletedDate s with
  | Some lastCompleted =>
      if truthy (Some lastCompleted) then
        let yesterday := minusOneDay now' in
        if (reformat lastCompleted =? toDateString yesterday)%string
        then currentStreak s + 1
        else if negb (reformat lastCompleted =? today)%string
        then 1
        else currentStreak s
      else 1
  | None => 1
  end.

(** [markComplete(problemId)]; [now] and [now'] are its two readings of
    the clock, in order.  The handler has no result: nothing tells its
    caller whether [problemId] was found. *)
Definition markComplete (problemId : string) (now now' : Z) (st : State)
  : State :=
  let today := toDateString now in
  let updatedProblems :=
    map (fun p => if (id p =? problemId)%string
                  then setCompleted p today else p) (problems st) in
  let newTotalCompleted := totalCompleted (stats st) + 1 in
  let streak := newCurrentStreak (stats st) today now' in
  {| problems := updatedProblems;
     stats := {| totalCompleted := newTotalCompleted;
                 currentStreak := streak;
                 longestStreak := Z.max (longestStreak (stats st)) streak;
                 lastCompletedDate := Some today |} |}.

(** [markIncomplete(problemId)] *)
Definition markIncomplete (problemId : string) (now : Z) (st : State)
  : State :=
  let updatedProblems :=
    map (fun p => if (id p =? problemId)%string
                  then setIncomplete p else p) (problems st) in
  {| problems := updatedProblems;
     stats := recalculateStatsFromHistory (stats st) updatedProblems now |}.

(** A recomputation over the store as it is. *)
Definition recompute (now : Z) (st : State) : State :=
  {| problems := problems st;
     stats := recalculateStatsFromHistory (stats st) (problems st) now |}.

(** The operations on the store, each with its readings of the clock. *)
Inductive Op :=
| OpMarkComplete (problemId : string) (now now' : Z)
| OpMarkIncomplete (problemId : string) (now : Z)
| OpRecompute (now : Z).

Definition step (st : State) (o : Op) : State :=
  match o with
  | OpMarkComplete problemId now now' => markComplete problemId now now' st
  | OpMarkIncomplete problemId now => markIncomplete problemId now st
  | OpRecompute now => recompute now st
  end.

Definition run (st : State) (ops : list Op) : State :=
  fold_left step ops st.

End CoreLogic.

(** ** Hosts in a zone with a fixed offset from UTC

    The [Date] of ECMAScript for a host whose local time is UTC plus a
    fixed [localTZA] milliseconds (no daylight saving): a local day is
    [msPerDay] long, [toDateString] prints weekday, month, day and year
    of the local date in the proleptic Gregorian calendar (Thu Jan 01
    1970 is day 0), and [new Date(s)] reads back what [toDateString]
    prints, with a four-digit year, as the local midnight of that day.
    Any other string is an Invalid Date here. *)
Module Zone.

(** [LocalTime(t)] of ECMA-262. *)
Definition LocalTime (localTZA t : Z) : Z := t + localTZA.

(** [Day(t)] and [WeekDay(t)] of ECMA-262. *)
Definition Day (t : Z) : Z := t / msPerDay.

Definition WeekDay (t : Z) : Z := (Day t + 4) mod 7.

(** Year, month (1 to 12) and day of month of a day number. *)
Definition civilFromDays (z : Z) : Z * Z * Z :=
  let z := z + 719468 in
  let era := z / 146097 in
  let doe := z - era * 146097 in
  let yoe := (doe - doe / 1460 + doe / 36524 - doe / 146096) / 365 in
  let doy := doe - (365 * yoe + yoe / 4 - yoe / 100) in
  let mp := (5 * doy + 2) / 153 in
  let d := doy - (153 * mp + 2) / 5 + 1 in
  let m := if mp <? 10 then mp + 3 else mp - 9 in
  let y := yoe + era * 400 in
  (if m <=? 2 then y + 1 else y, m, d).

(** [MakeDay]: the day number of a year, month and day of month. *)
Definition daysFromCivil (y m d : Z) : Z :=
  let y := if m <=? 2 then y - 1 else y in
  let era := y / 400 in
  let yoe := y - era * 400 in
  let doy := (153 * (if 2 <? m then m - 3 else m + 9) + 2) / 5 + d - 1 in
  let doe := yoe * 365 + yoe / 4 - yoe / 100 + doy in
  era * 146097 + doe - 719468.

Definition weekdayNames : list string :=
  ["Sun"; "Mon"; "Tue"; "Wed"; "Thu"; "Fri"; "Sat"]%string.

Definition monthNames : list string :=
  ["Jan"; "Feb"; "Mar"; "Apr"; "May"; "Jun";
   "Jul"; "Aug"; "Sep"; "Oct"; "Nov"; "Dec"]%string.

Definition digit (n : Z) : ascii := ascii_of_nat (48 + Z.to_nat n).

Definition digitVal (c : ascii) : option Z :=
  let n := Z.of_nat (nat_of_ascii c) in
  if (48 <=? n) && (n <=? 57) then Some (n - 48) else None.

Definition twoDigits (n : Z) : string :=
  String (digit (n / 10)) (String (digit (n mod 10)) EmptyString).

(** Decimal digits of a natural number, most significant first. *)
Fixpoint digitsOf (fuel : nat) (n : Z) (acc : string) : string :=
  match fuel with
  | O => acc
  | S fuel' =>
      let acc := String (digit (n mod 10)) acc in
      if n <? 10 then acc else digitsOf fuel' (n / 10) acc
  end.

Fixpoint padLeft (k : nat) (s : string) : string :=
  match k with
  | O => s
  | S k' => padLeft k' (String "0"%char s)
  end.

(** The year as [toDateString] prints it: a minus sign when negative,
    then at least four digits. *)
Definition paddedYear (y : Z) : string :=
  let ds := digitsOf 20 (Z.abs y) EmptyString in
  let ds := padLeft (4 - String.length ds) ds in
  if y <? 0 then String "-"%char ds else ds.

(** [new Date(t).toDateString()] *)
Definition DateString (localTZA t : Z) : string :=
  let t := LocalTime localTZA t in
  let '(y, m, d) := civilFromDays (Day t) in
  (nth (Z.to_nat (WeekDay t)) weekdayNames EmptyString ++ " "
   ++ nth (Z.to_nat (m - 1)) monthNames EmptyString ++ " "
   ++ twoDigits d ++ " " ++ paddedYear y)%string.

(** Position of a name in a list of names, counted from [k]. *)
Fixpoint indexOf (s : string) (names : list string) (k : Z) : option Z :=
  match names with
  | [] => None
  | n :: names' => if (s =? n)%string then Some k else indexOf s names' (k + 1)
  end.

Definition str3 (a b c : ascii) : string :=
  String a (String b (String c EmptyString)).

(** [new Date(s).getTime()] for [s] of the shape [Www Mmm DD YYYY]. *)
Definition parseDateString (localTZA : Z) (s : string) : option Z :=
  match s with
  | String w1 (String w2 (String w3 (String sp1
    (String m1 (String m2 (String m3 (String sp2
    (String d1 (String d2 (String sp3
    (String y1 (String y2 (String y3 (String y4 EmptyString)))))))))))))) =>
      if (sp1 =? " ")%char && (sp2 =? " ")%char && (sp3 =? " ")%char then
        match indexOf (str3 w1 w2 w3) weekdayNames 0,
              indexOf (str3 m1 m2 m3) monthNames 1,
              digitVal d1, digitVal d2,
              digitVal y1, digitVal y2, digitVal y3, digitVal y4 with
        | Some _, Some m, Some a, Some b, Some c, Some e, Some f, Some g =>
            let d := 10 * a + b in
            let y := 1000 * c + 100 * e + 10 * f + g in
            if (1 <=? d) && (d <=? 31)
            then Some (daysFromCivil y m d * msPerDay - localTZA)
            else None
        | _, _, _, _, _, _, _, _ => None
        end
      else None
  | _ => None
  end.

Definition host (localTZA : Z) : JSDate := {|
  getTime := parseDateString localTZA;
  toDateString := DateString localTZA;
  minusOneDay := fun t => t - msPerDay
|}.

End Zone.

(** ** Vocabulary of the specification *)

Section Vocabulary.

Context {rt : JSDate} {engine : JSArray}.

(** The number of Problems with [completed == true]. *)
Definition countCompleted (ps : list Problem) : Z :=
  Z.of_nat (List.length (filter completed ps)).

(** How many Problems of the store carry the id. *)
Definition occurrences (problemId : string) (ps : list Problem) : nat :=
  List.length (filter (fun p => (id p =? problemId)%string) ps).

(** No Problem with this id is completed yet. *)
Definition notYetCompleted (problemId : string) (ps : list Problem) : Prop :=
  Forall (fun p => id p = problemId -> completed p = false) ps.

(** The data-model invariant in the direction the streak engine relies
    on: a completed Problem carries a non-empty completion date. *)
Definition datesPresent (ps : list Problem) : Prop :=
  Forall (fun p => completed p = true -> truthy (completedDate p) = true) ps.

(** The sorted completed history the recomputation walks. *)
Definition completedHistory (ps : list Problem) : list Problem :=
  sortByDate (filter isCompleted ps).

(** The running streak at every element of the walk, the first one
    holding [streak]. *)
Fixpoint runningStreaks (prev : Problem) (rest : list Problem) (streak : Z)
  : list Z :=
  match rest with
  | [] => [streak]
  | cur :: rest' =>
      streak :: runningStreaks cur rest' (streakStep prev cur streak)
  end.

(** The largest element of a non-empty list of numbers. *)
Definition listMax (x : Z) (l : list Z) : Z := fold_left Z.max l x.

(** The time value of the completion date of a Problem whose date
    parses. *)
Definition timeKey (p : Problem) : Z :=
  match timeOf p with Some t => t | None => 0 end.

Definition dated (p : Problem) : Prop := timeOf p = Some (timeKey p).

(** Not later than, by completion date. *)
Definition keyLe (a b : Problem) : Prop := timeKey a <= timeKey b.

End Vocabulary.

(** [g] is [round(d / msPerDay)]: the whole number nearest to [d] in
    days, half a day counting upward. *)
Definition nearestDays (d g : Z) : Prop :=
  (2 * g - 1) * msPerDay <= 2 * d < (2 * g + 1) * msPerDay.

(** [g] is [floor(d / msPerDay)]: the whole days in [d]. *)
Definition wholeDays (d g : Z) : Prop :=
  g * msPerDay <= d < (g + 1) * msPerDay.

(** Step 3 of the recomputation in the words of the specification:
    [runs] holds the running streak at each of the completion times
    [times], which are in ascending order.  It is 1 at the first; at
    each further one it is the one before plus 1 when the rounded
    day-gap to the time before is 1, 1 when the gap exceeds 1, and the
    one before when the gap is 0. *)
Definition runningOver (times runs : list Z) : Prop :=
  List.length runs = List.length times /\
  nth 0 runs 0 = 1 /\
  forall i g,
    (S i < List.length times)%nat ->
    nearestDays (nth (S i) times 0 - nth i times 0) g ->
    (g = 1 -> nth (S i) runs 0 = nth i runs 0 + 1) /\
    (1 < g -> nth (S i) runs 0 = 1) /\
    (g = 0 -> nth (S i) runs 0 = nth i runs 0).

(** What every operation keeps once it holds: the streaks are ordered
    and the longest one is not negative. *)
Definition streaksOrdered (s : Stats) : Prop :=
  0 <= longestStreak s /\ currentStreak s <= longestStreak s.

(** The local day of a moment and the moment of its local midnight,
    in a zone [localTZA] milliseconds ahead of UTC. *)
Definition localDay (localTZA t : Z) : Z := (t + localTZA) / msPerDay.

Definition midnight (localTZA t : Z) : Z :=
  localDay localTZA t * msPerDay - localTZA.

(** The moments whose local date is from Thu Jan 01 1970 to Fri Dec 31
    9999: the epoch on, with a year that [toDateString] prints with
    four digits. *)
Definition inWindow (localTZA t : Z) : Prop :=
  0 <= t + localTZA < 253402300800000.

(** A host in a zone without daylight saving, [localTZA] milliseconds
    ahead of UTC: what the incremental update of [markComplete] and
    the recomputation both take for granted of the calendar. *)
Record RegularZone (rt : JSDate) (localTZA : Z) : Prop := {
  (** a date string reads back as the local midnight of its day *)
  getTime_toDateString :
    forall t, inWindow localTZA t ->
      getTime (toDateString t) = Some (midnight localTZA t);
  (** the date string is that of the local day *)
  toDateString_day :
    forall t t', inWindow localTZA t -> inWindow localTZA t' ->
      localDay localTZA t = localDay localTZA t' ->
      toDateString t = toDateString t';
  toDateString_nonempty :
    forall t, inWindow localTZA t -> toDateString t <> EmptyString;
  (** [setDate(getDate() - 1)] goes back one day *)
  minusOneDay_day :
    forall t, inWindow localTZA t -> inWindow localTZA (t - msPerDay) ->
      toDateString (minusOneDay t) = toDateString (t - msPerDay)
}.

(** Every completion date of the store was written by [markComplete] at
    some moment of the window not after [now]. *)
Definition recordedBy {rt : JSDate} (localTZA now : Z) (ps : list Problem)
  : Prop :=
  Forall (fun p => isCompleted p = true ->
            exists t, inWindow localTZA t /\ t <= now /\
                      completedDate p = Some (toDateString t))
         ps.

(** ** Concrete stores, on a host at UTC *)
Module Examples.

#[export] Instance utc : JSDate := Zone.host 0.

(** An engine whose [sort] is the insertion sort itself.  Where the
    comparator is not consistent its order is its own, as that of any
    engine is. *)
#[export] Instance insertionSort : JSArray.
Proof.
  refine {| sort := @stableSort |}.
  - intros A comparefn l.
    assert (Hins : forall x l', Permutation (insertStable comparefn x l')
                                  (x :: l')).
    { intros x l'. induction l' as [|y l' IH]; cbn; [reflexivity|].
      destruct (numGt (comparefn x y) 0); [|reflexivity].
      rewrite IH. apply perm_swap. }
    induction l as [|x l IH]; cbn; [reflexivity|].
    rewrite Hins. now constructor.
  - reflexivity.
Defined.

(** Mon Nov 02 2026, 12:00 and 18:00 UTC. *)
Definition noon : Z := 1793620800000.
Definition evening : Z := 1793642400000.

(** Sun Nov 01 2026, 09:00 UTC. *)
Definition sundayMorning : Z := 1793523600000.

(** Ids as [parseProblems] makes them. *)
Definition idA : string := "problem-1793500000000-0".
Definition idB : string := "problem-1793500000000-1".
Definition idC : string := "problem-1793500000000-2".
Definition idD : string := "problem-1793500000000-3".

Definition problemA (done : bool) (date : option string) : Problem :=
  {| id := idA; title := "Two Sum";
     url := "https://leetcode.com/problems/two-sum"; platform := "LeetCode";
     completed := done; completedDate := date |}.

Definition problemB (done : bool) (date : option string) : Problem :=
  {| id := idB; title := "Watermelon";
     url := "https://codeforces.com/problemset/problem/4/A";
     platform := "Codeforces";
     completed := done; completedDate := date |}.

Definition problemC (done : bool) (date : option string) : Problem :=
  {| id := idC; title := "Problem 3";
     url := ""; platform := "Unknown";
     completed := done; completedDate := date |}.

Definition problemD (done : bool) (date : option string) : Problem :=
  {| id := idD; title := "Chef and Strings";
     url := "https://www.codechef.com/problems/CHEFSTR1";
     platform := "CodeChef";
     completed := done; completedDate := date |}.

(** A completed on Sunday, B still open, Stats up to date. *)
Definition sundayDone : State :=
  {| problems := [problemA true (Some "Sun Nov 01 2026"%string);
                  problemB false None];
     stats := {| currentStreak := 1; longestStreak := 1; totalCompleted := 1;
                 lastCompletedDate := Some "Sun Nov 01 2026"%string |} |}.

(** The same store after the persisted Stats were lost: [loadFromStorage]
    fell back to the zeroed default for [potd-stats] only. *)
Definition statsLost : State :=
  {| problems := problems sundayDone; stats := initialStats |}.

(** A fresh store: one open problem, zeroed Stats. *)
Definition fresh : State :=
  {| problems := [problemB false None]; stats := initialStats |}.

(** Completions on Fri Oct 30, on Sat Oct 31 and two on Mon Nov 02. *)
Definition history : list Problem :=
  [problemA true (Some "Fri Oct 30 2026"%string);
   problemB true (Some "Sat Oct 31 2026"%string);
   problemC true (Some "Mon Nov 02 2026"%string);
   problemD true (Some "Mon Nov 02 2026"%string)].

(** Three open problems and zeroed Stats. *)
Definition threeOpen : State :=
  {| problems := [problemA false None; problemB false None;
                  problemC false None];
     stats := initialStats |}.

(** The same hour [k] days after [noon]. *)
Definition daysLater (k : Z) : Z := noon + k * msPerDay.

(** India Standard Time, five and a half hours ahead of UTC. *)
Definition ist : Z := 19800000.

End Examples.

(** ** Text of the upload box

    A JavaScript string is taken as its sequence of code units, each
    below 256; among those the white space of [trim] and of the
    regular expression class [\s] is TAB, LF, VT, FF, CR, SP and
    NBSP. *)

Definition isWhiteSpace (c : ascii) : bool :=
  let n := nat_of_ascii c in
  (((9 <=? n) && (n <=? 13)) || (n =? 32) || (n =? 160))%nat.

Fixpoint trimStart (s : string) : string :=
  match s with
  | EmptyString => EmptyString
  | String c s' => if isWhiteSpace c then trimStart s' else s
  end.

Fixpoint trimEnd (s : string) : string :=
  match s with
  | EmptyString => EmptyString
  | String c s' =>
      match trimEnd s' with
      | EmptyString =>
          if isWhiteSpace c then EmptyString else String c EmptyString
      | t => String c t
      end
  end.

(** [s.trim()] *)
Definition trim (s : string) : string := trimEnd (trimStart s).

(** Truthiness of a string. *)
Definition nonEmpty (s : string) : bool :=
  match s with EmptyString => false | String _ _ => true end.

(** [s.split('\n')]: never empty, one more piece than line feeds. *)
Fixpoint splitLines (s : string) : list string :=
  match s with
  | EmptyString => [EmptyString]
  | String c s' =>
      if (c =? "010")%char then EmptyString :: splitLines s'
      else match splitLines s' with
           | piece :: pieces => String c piece :: pieces
           | [] => [String c EmptyString]
           end
  end.

(** What is left of [s] after its prefix [pat], when it has it. *)
Fixpoint stripPrefix (pat s : string) : option string :=
  match pat, s with
  | EmptyString, _ => Some s
  | String a pat', String b s' =>
      if (a =? b)%char then stripPrefix pat' s' else None
  | String _ _, EmptyString => None
  end.

(** [s.includes(pat)] *)
Fixpoint includes (pat s : string) : bool :=
  match stripPrefix pat s with
  | Some _ => true
  | None =>
      match s with
      | EmptyString => false
      | String _ s' => includes pat s'
      end
  end.

(** [s.replace(pat, '')]: the first occurrence of the string [pat] goes. *)
Fixpoint replaceFirst (pat s : string) : string :=
  match stripPrefix pat s with
  | Some rest => rest
  | None =>
      match s with
      | EmptyString => EmptyString
      | String c s' => String c (replaceFirst pat s')
      end
  end.

(** The longest prefix without white space: what a greedy [[^\s]*]
    takes. *)
Fixpoint nonSpaceRun (s : string) : string :=
  match s with
  | EmptyString => EmptyString
  | String c s' =>
      if isWhiteSpace c then EmptyString else String c (nonSpaceRun s')
  end.

(** [:\/\/[^\s]+] at the start of [s]. *)
Definition urlTail (s : string) : option string :=
  match stripPrefix "://" s with
  | Some rest =>
      match nonSpaceRun rest with
      | EmptyString => None
      | run => Some ("://" ++ run)%string
      end
  | None => None
  end.

(** [https?:\/\/[^\s]+] at the start of [s]: the optional [s] is tried
    first and given up when the rest does not match. *)
Definition matchUrlAt (s : string) : option string :=
  match stripPrefix "http" s with
  | Some rest =>
      let without := option_map (append "http") (urlTail rest) in
      match rest with
      | String "s"%char rest' =>
          match urlTail rest' with
          | Some m => Some ("https" ++ m)%string
          | None => without
          end
      | _ => without
      end
  | None => None
  end.

(** [line.match(/https?:\/\/[^\s]+/)]: the match at the leftmost
    position that has one; [None] is [null]. *)
Fixpoint matchUrl (line : string) : option string :=
  match line with
  | EmptyString => None
  | String _ line' =>
      match matchUrlAt line with
      | Some m => Some m
      | None => matchUrl line'
      end
  end.

(** An integer in a template literal. *)
Definition numberToString (z : Z) : string :=
  NilEmpty.string_of_int (Z.to_int z).

(** The platform of a url, by the first name it includes. *)
Definition platformOf (url : string) : string :=
  if includes "leetcode" url then "LeetCode"
  else if includes "codeforces" url then "Codeforces"
  else if includes "codechef" url then "CodeChef"
  else if includes "hackerrank" url then "HackerRank"
  else "Unknown".

(** [`problem-${Date.now()}-${index}`] *)
Definition problemId (now : Z) (index : nat) : string :=
  ("problem-" ++ numberToString now ++ "-"
   ++ numberToString (Z.of_nat index))%string.

(** The callback of [lines.map] in [parseProblems]; [now] is its
    reading of [Date.now()]. *)
Definition parseLine (now : Z) (index : nat) (line : string) : Problem :=
  let url := match matchUrl line with Some m => m | None => EmptyString end in
  let title :=
    match trim (replaceFirst url line) with
    | EmptyString =>
        ("Problem " ++ numberToString (Z.of_nat index + 1))%string
    | t => t
    end in
  {| id := problemId now index;
     title := title;
     url := url;
     platform := platformOf url;
     completed := false;
     completedDate := None |}.

(** [lines.map((line, index) => ...)] from index [k] on; [clock i] is
    what [Date.now()] returns in the callback of index [i]. *)
Fixpoint mapLines (clock : nat -> Z) (k : nat) (lines : list string)
  : list Problem :=
  match lines with
  | [] => []
  | line :: lines' =>
      parseLine (clock k) k line :: mapLines clock (S k) lines'
  end.

(** The non-blank lines of the upload box. *)
Definition inputLines (input : string) : list string :=
  filter (fun line => nonEmpty (trim line)) (splitLines (trim input)).

(** [parseProblems(input)] *)
Definition parseProblems (clock : nat -> Z) (input : string) : list Problem :=
  mapLines clock 0 (inputLines input).

(** The upload dialog: [problemInput] and [showUpload]. *)
Record UploadForm := mkUploadForm {
  problemInput : string;
  showUpload : bool
}.

(** [handleUploadProblems()] *)
Definition handleUploadProblems (clock : nat -> Z)
  (form : UploadForm) (st : State) : UploadForm * State :=
  if negb (nonEmpty (trim (problemInput form))) then (form, st)
  else
    let newProblems := parseProblems clock (problemInput form) in
    ({| problemInput := EmptyString; showUpload := false |},
     {| problems := problems st ++ newProblems; stats := stats st |}).

(** The own keys of [lightModeColors] and [darkModeColors] in
    [PlatformTag]. *)
Definition lightModeColors : list (string * string) :=
  [("LeetCode", "bg-yellow-100 text-yellow-800");
   ("Codeforces", "bg-red-100 text-red-800");
   ("CodeChef", "bg-orange-100 text-orange-800");
   ("HackerRank", "bg-green-100 text-green-800");
   ("Unknown", "bg-gray-100 text-gray-800")]%string.

Definition darkModeColors : list (string * string) :=
  [("LeetCode", "bg-yellow-900/50 text-yellow-300");
   ("Codeforces", "bg-red-900/50 text-red-300");
   ("CodeChef", "bg-orange-900/50 text-orange-300");
   ("HackerRank", "bg-green-900/50 text-green-300");
   ("Unknown", "bg-gray-700 text-gray-300")]%string.

Fixpoint ownProperty (key : string) (table : list (string * string))
  : option string :=
  match table with
  | [] => None
  | (k, v) :: table' => if (k =? key)%string then Some v
                        else ownProperty key table'
  end.

(** The [className] of [PlatformTag] for a platform that is an own key
    of the colour table. *)
Definition platformTagClass (platform : string) (darkMode : bool)
  : option string :=
  option_map (append "text-xs px-2 py-1 rounded-full ")
    (ownProperty platform
       (if darkMode then darkModeColors else lightModeColors)).

(** ** What the component renders *)

Section Render.

Context {rt : JSDate} {engine : JSArray}.

(** [stats.lastCompletedDate === today] *)
Definition isPotdDoneForToday (st : State) (now : Z) : bool :=
  match lastCompletedDate (stats st) with
  | Some d => (d =? toDateString now)%string
  | None => false
  end.

(** [problems.find(p => !p.completed) || null] *)
Definition nextIncompleteProblem (st : State) : option Problem :=
  find (fun p => negb (completed p)) (problems st).

(** [problems.length > 0 && !nextIncompleteProblem] *)
Definition allProblemsCompleted (st : State) : bool :=
  negb (Nat.eqb (List.length (problems st)) 0) &&
  match nextIncompleteProblem st with Some _ => false | None => true end.

(** [problems.filter(p => p.completed)] *)
Definition completedProblems (st : State) : list Problem :=
  filter completed (problems st).

(** The main content area. *)
Inductive Card :=
| GetStartedCard
| PotdDoneForTodayCard
| TodayProblemCard (problem : Problem)
| AllProblemsDoneCard
| NoCard.

Definition mainContent (st : State) (now : Z) : Card :=
  if Nat.eqb (List.length (problems st)) 0 then GetStartedCard
  else if isPotdDoneForToday st now then PotdDoneForTodayCard
  else match nextIncompleteProblem st with
       | Some problem => TodayProblemCard problem
       | None =>
           if allProblemsCompleted st then AllProblemsDoneCard else NoCard
       end.

(** The buttons that call the recorder, with the id they pass. *)
Inductive Button :=
| MarkCompleteButton (problemId : string)
| MarkIncompleteButton (problemId : string).

(** The buttons of [ProblemHistory], one per [ProblemHistoryItem]. *)
Definition historyButtons (st : State) : list Button :=
  map (fun p => if completed p then MarkIncompleteButton (id p)
                else MarkCompleteButton (id p)) (problems st).

(** All buttons on screen when the component rendered at [now]. *)
Definition buttons (st : State) (now : Z) : list Button :=
  match mainContent st now with
  | TodayProblemCard problem => [MarkCompleteButton (id problem)]
  | _ => []
  end ++ historyButtons st.

(** A click: the button, the moment of the render that showed it and
    the readings of the clock its handler takes. *)
Record Click := mkClick {
  button : Button;
  renderedAt : Z;
  clickedAt : Z;
  clickedAt' : Z
}.

Definition click (st : State) (c : Click) : State :=
  match button c with
  | MarkCompleteButton problemId =>
      markComplete problemId (clickedAt c) (clickedAt' c) st
  | MarkIncompleteButton problemId =>
      markIncomplete problemId (clickedAt c) st
  end.

(** Every click of the session is on a button that was on screen. *)
Fixpoint onScreen (st : State) (clicks : list Click) : Prop :=
  match clicks with
  | [] => True
  | c :: clicks' =>
      In (button c) (buttons st (renderedAt c)) /\
      onScreen (click st c) clicks'
  end.

Definition session (st : State) (clicks : list Click) : State :=
  fold_left click clicks st.

End Render.

(** ** Vocabulary of the further properties *)

(** What neither handler of the recorder touches. *)
Definition unchangedFields (p : Problem) : string * string * string * string :=
  (id p, title p, url p, platform p).

(** The streak is not negative and not above the count. *)
Definition streakCounted (s : Stats) : Prop :=
  0 <= currentStreak s <= totalCompleted s.

(** Ids are unique, completed Problems are dated and [totalCompleted]
    is their number. *)
Definition countKept (st : State) : Prop :=
  NoDup (map id (problems st)) /\
  datesPresent (problems st) /\
  totalCompleted (stats st) = countCompleted (problems st).

Section SessionVocabulary.

Context {rt : JSDate} {engine : JSArray}.

(** The operations are marks, one on each local day after [day], each
    with both readings of the clock on its day. *)
Fixpoint markedDaily (localTZA day : Z) (ops : list Op) : Prop :=
  match ops with
  | [] => True
  | OpMarkComplete _ now now' :: ops' =>
      inWindow localTZA now /\ inWindow localTZA now' /\
      inWindow localTZA (now' - msPerDay) /\
      localDay localTZA now = day + 1 /\
      localDay localTZA now' = day + 1 /\
      markedDaily localTZA (day + 1) ops'
  | _ :: _ => False
  end.

(** The Stats are those of a recomputation made not after [t], over
    dates recorded by then. *)
Definition upToDate (localTZA t : Z) (st : State) : Prop :=
  exists s0 now0,
    now0 <= t /\
    stats st = recalculateStatsFromHistory s0 (problems st) now0 /\
    recordedBy localTZA now0 (problems st).

(** The clicks come in the order of the clock, from [t] on; a mark
    reads the clock twice on one local day of the window. *)
Fixpoint timely (localTZA t : Z) (clicks : list Click) : Prop :=
  match clicks with
  | [] => True
  | c :: clicks' =>
      t <= clickedAt c /\
      match button c with
      | MarkCompleteButton _ =>
          inWindow localTZA (clickedAt c) /\
          inWindow localTZA (clickedAt' c) /\
          inWindow localTZA (clickedAt' c - msPerDay) /\
          localDay localTZA (clickedAt' c) = localDay localTZA (clickedAt c)
      | MarkIncompleteButton _ => True
      end /\
      timely localTZA (clickedAt c) clicks'
  end.

End SessionVocabulary.

(** Empty, or starting with a character that is not white space. *)
Definition startsClean (s : string) : Prop :=
  match s with
  | EmptyString => True
  | String c _ => isWhiteSpace c = false
  end.

Fixpoint noWhiteSpace (s : string) : Prop :=
  match s with
  | EmptyString => True
  | String c s' => isWhiteSpace c = false /\ noWhiteSpace s'
  end.

Fixpoint noDash (s : string) : Prop :=
  match s with
  | EmptyString => True
  | String c s' => c <> "-"%char /\ noDash s'
  end.



(** [t || placeholder] *)
Definition orPlaceholder (t placeholder : string) : string :=
  match t with EmptyString => placeholder | String _ _ => t end.

(** ** A session and a pasted text, on the host at UTC *)
Module Sessions.

Import Examples.

(** The today card on Monday noon, the history list on Tuesday (a mark
    and an unmark) and on Wednesday. *)
Definition clicks : list Click :=
  [{| button := MarkCompleteButton idA; renderedAt := noon;
      clickedAt := noon + 1000; clickedAt' := noon + 1001 |};
   {| button := MarkCompleteButton idB; renderedAt := daysLater 1;
      clickedAt := daysLater 1 + 5; clickedAt' := daysLater 1 + 5 |};
   {| button := MarkIncompleteButton idA; renderedAt := daysLater 1 + 60000;
      clickedAt := daysLater 1 + 61000; clickedAt' := 0 |}].

Definition lastClick : Click :=
  {| button := MarkCompleteButton idC; renderedAt := daysLater 2;
     clickedAt := daysLater 2 + 7; clickedAt' := daysLater 2 + 7 |}.

(** The completion times of [history], in ascending order, and the
    running streaks of the walk over them. *)
Definition historyTimes : list Z :=
  [1793318400000; 1793404800000; 1793577600000; 1793577600000].

Definition historyRuns : list Z := [1; 2; 1; 1].

(** The last millisecond of Mon Nov 02 2026 at UTC, and the first of
    Tue Nov 03. *)
Definition beforeMidnight : Z := 1793663999999.
Definition atMidnight : Z := 1793664000000.

(** Marks on Tuesday and on Wednesday. *)
Definition dailyOps : list Op :=
  [OpMarkComplete idB (daysLater 1) (daysLater 1 + 1);
   OpMarkComplete idC (daysLater 2 + 3600000) (daysLater 2 + 3600000)].

(** The placeholder text of the upload box, with a blank line and a
    line without link added. *)
Definition pasted : string :=
  ("Two Sum https://leetcode.com/problems/two-sum/" ++ String "010"
   ("https://codeforces.com/problem/1/A" ++ String "010"
   ("   " ++ String "010" "warm up  ")))%string.

End Sessions.

(** ** The streak engine *)

Section EngineFacts.

Context {rt : JSDate} {engine : JSArray}.

(** [completed[completed.length - 1]] of a non-empty array. *)
Lemma last_cons (l : list Problem) :
  forall x d, last (x :: l) d = last l x.
Proof.
  induction l as [|y l IH]; intros x d; [reflexivity|].
  change (last (y :: l) d = last (y :: l) x). now rewrite !IH.
Qed.

(** The sorted array holds the elements of the array it was made
    from. *)
Lemma sortByDate_perm (l : list Problem) : Permutation (sortByDate l) l.
Proof. apply sort_permutation. Qed.

Lemma sortByDate_length (l : list Problem) :
  List.length (sortByDate l) = List.length l.
Proof. apply Permutation_length, sortByDate_perm. Qed.

Lemma sortByDate_nil (l : list Problem) : sortByDate l = [] -> l = [].
Proof.
  intros H. apply length_zero_iff_nil.
  rewrite <- sortByDate_length, H. reflexivity.
Qed.

Lemma runningStreaks_length (rest : list Problem) :
  forall prev streak,
    List.length (runningStreaks prev rest streak) = S (List.length rest).
Proof.
  induction rest as [|cur rest IH]; intros; simpl; [reflexivity|].
  now rewrite IH.
Qed.

Lemma runningStreaks_last (rest : list Problem) :
  forall prev streak d d',
    last (runningStreaks prev rest streak) d =
    last (runningStreaks prev rest streak) d'.
Proof.
  induction rest as [|cur rest IH]; intros prev streak d d'.
  - reflexivity.
  - cbn [runningStreaks].
    pose proof (runningStreaks_length rest cur (streakStep prev cur streak)) as L.
    destruct (runningStreaks cur rest (streakStep prev cur streak)) as [|r rs] eqn:E.
    + discriminate L.
    + change (last (r :: rs) d = last (r :: rs) d').
      rewrite <- E. apply IH.
Qed.

(** The two results of the loop, read off the running streaks. *)
Lemma streakWalk_runningStreaks (rest : list Problem) :
  forall prev streak longest,
    streakWalk prev rest streak longest =
    (last (runningStreaks prev rest streak) streak,
     listMax longest (tl (runningStreaks prev rest streak))).
Proof.
  induction rest as [|cur rest IH]; intros prev streak longest.
  - reflexivity.
  - cbn [streakWalk]. rewrite IH.
    cbn [runningStreaks tl].
    replace (if longest <? streakStep prev cur streak
             then streakStep prev cur streak else longest)
      with (Z.max longest (streakStep prev cur streak))
      by (destruct (Z.ltb_spec longest (streakStep prev cur streak)); lia).
    pose proof (runningStreaks_length rest cur (streakStep prev cur streak)) as L.
    pose proof (runningStreaks_last rest cur (streakStep prev cur streak)
                  (streakStep prev cur streak) streak) as Hl.
    destruct rest as [|nxt rest]; [reflexivity|].
    cbn [runningStreaks] in *. cbn [tl listMax fold_left last] in *.
    f_equal. exact Hl.
Qed.

(** Each running streak comes from the one before it by one loop turn. *)
Lemma runningStreaks_step (rest : list Problem) :
  forall prev streak i d,
    (i < List.length rest)%nat ->
    nth (S i) (runningStreaks prev rest streak) d =
    streakStep (nth i (prev :: rest) prev) (nth (S i) (prev :: rest) prev)
      (nth i (runningStreaks prev rest streak) d).
Proof.
  induction rest as [|cur rest IH]; intros prev streak i d Hi.
  - simpl in Hi. lia.
  - destruct i as [|i].
    + destruct rest; reflexivity.
    + simpl in Hi.
      change (nth (S i) (runningStreaks cur rest (streakStep prev cur streak)) d =
              streakStep (nth i (cur :: rest) prev) (nth (S i) (cur :: rest) prev)
                (nth i (runningStreaks cur rest (streakStep prev cur streak)) d)).
      rewrite (IH cur _ i d) by lia.
      rewrite (nth_indep (cur :: rest) prev cur) by (simpl; lia).
      rewrite (nth_indep (cur :: rest) prev cur) by (simpl; lia).
      reflexivity.
Qed.

Lemma streakWalk_bounds (rest : list Problem) :
  forall prev streak longest,
    streak <= longest ->
    fst (streakWalk prev rest streak longest)
      <= snd (streakWalk prev rest streak longest)
    /\ longest <= snd (streakWalk prev rest streak longest).
Proof.
  induction rest as [|cur rest IH]; intros prev streak longest H.
  - simpl. lia.
  - cbn [streakWalk].
    destruct (Z.ltb_spec longest (streakStep prev cur streak)).
    + destruct (IH cur (streakStep prev cur streak)
                  (streakStep prev cur streak)); lia.
    + destruct (IH cur (streakStep prev cur streak) longest); lia.
Qed.

(** The shape of a recomputation over a non-empty history. *)
Lemma recalculate_nonempty (s : Stats) (ps : list Problem) (now : Z)
  (first : Problem) (rest : list Problem) :
  completedHistory ps = first :: rest ->
  recalculateStatsFromHistory s ps now =
  {| totalCompleted := Z.of_nat (List.length (first :: rest));
     currentStreak :=
       if numGt (floorDays (numSub (Some now) (timeOf (last rest first)))) 1
       then 0 else fst (streakWalk first rest 1 1);
     longestStreak :=
       Z.max (longestStreak s) (snd (streakWalk first rest 1 1));
     lastCompletedDate := completedDate (last rest first) |}.
Proof.
  unfold completedHistory, recalculateStatsFromHistory. intros ->.
  destruct (streakWalk first rest 1 1). reflexivity.
Qed.

Lemma recalculate_empty (s : Stats) (ps : list Problem) (now : Z) :
  completedHistory ps = [] ->
  recalculateStatsFromHistory s ps now =
  {| currentStreak := 0; longestStreak := longestStreak s;
     totalCompleted := 0; lastCompletedDate := None |}.
Proof.
  unfold completedHistory, recalculateStatsFromHistory. intros ->.
  reflexivity.
Qed.

(** A recomputation depends on the store through its completed
    history only. *)
Lemma recalculate_history (s : Stats) (ps ps' : list Problem) (now : Z) :
  filter isCompleted ps = filter isCompleted ps' ->
  recalculateStatsFromHistory s ps now = recalculateStatsFromHistory s ps' now.
Proof.
  unfold recalculateStatsFromHistory. intros ->. reflexivity.
Qed.

Lemma recalculate_longest_le (s : Stats) (ps : list Problem) (now : Z) :
  longestStreak s <= longestStreak (recalculateStatsFromHistory s ps now).
Proof.
  destruct (completedHistory ps) as [|first rest] eqn:E.
  - rewrite recalculate_empty by assumption. simpl. lia.
  - rewrite (recalculate_nonempty _ _ _ _ _ E). simpl. lia.
Qed.

Lemma recalculate_total (s : Stats) (ps : list Problem) (now : Z) :
  totalCompleted (recalculateStatsFromHistory s ps now) =
  Z.of_nat (List.length (filter isCompleted ps)).
Proof.
  destruct (completedHistory ps) as [|first rest] eqn:E.
  - rewrite recalculate_empty by assumption.
    apply sortByDate_nil in E. rewrite E. reflexivity.
  - rewrite (recalculate_nonempty _ _ _ _ _ E). cbn [totalCompleted].
    rewrite <- E. unfold completedHistory.
    now rewrite sortByDate_length.
Qed.

Lemma step_longest_le (st : State) (o : Op) :
  longestStreak (stats st) <= longestStreak (stats (step st o)).
Proof.
  destruct o; simpl.
  - lia.
  - apply recalculate_longest_le.
  - apply recalculate_longest_le.
Qed.

End EngineFacts.

(** ** The store under the recorder *)

Section StoreFacts.

Context {rt : JSDate} {engine : JSArray}.

Lemma markComplete_total (problemId : string) (now now' : Z) (st : State) :
  totalCompleted (stats (markComplete problemId now now' st)) =
  totalCompleted (stats st) + 1.
Proof. reflexivity. Qed.

Lemma map_unknown_id (problemId : string) (f : Problem -> Problem)
  (ps : list Problem) :
  occurrences problemId ps = 0%nat ->
  map (fun p => if (id p =? problemId)%string then f p else p) ps = ps.
Proof.
  unfold occurrences. induction ps as [|p ps IH]; intros H.
  - reflexivity.
  - simpl in *. destruct (id p =? problemId)%string.
    + discriminate H.
    + f_equal. apply IH, H.
Qed.

(** Marking adds to the completed Problems those that carry the id. *)
Lemma countCompleted_mark (problemId today : string) (ps : list Problem) :
  notYetCompleted problemId ps ->
  countCompleted
    (map (fun p => if (id p =? problemId)%string
                   then setCompleted p today else p) ps) =
  countCompleted ps + Z.of_nat (occurrences problemId ps).
Proof.
  unfold countCompleted, occurrences, notYetCompleted.
  induction ps as [|p ps IH]; intros H.
  - reflexivity.
  - inversion H as [|? ? Hp Hps]; subst. specialize (IH Hps).
    cbn [map filter]. destruct (String.eqb_spec (id p) problemId) as [E|E].
    + rewrite (Hp E). cbn [completed setCompleted List.length].
      rewrite !Nat2Z.inj_succ. lia.
    + destruct (completed p); cbn [List.length];
        rewrite ?Nat2Z.inj_succ; lia.
Qed.

(** Unmarking keeps every completed Problem dated. *)
Lemma datesPresent_unmark (problemId : string) (ps : list Problem) :
  datesPresent ps ->
  datesPresent
    (map (fun p => if (id p =? problemId)%string
                   then setIncomplete p else p) ps).
Proof.
  unfold datesPresent. intros H. apply Forall_map.
  eapply Forall_impl; [|exact H]. intros p Hp.
  destruct (id p =? problemId)%string; [discriminate|exact Hp].
Qed.

Lemma datesPresent_filter (ps : list Problem) :
  datesPresent ps -> filter isCompleted ps = filter completed ps.
Proof.
  unfold datesPresent. intros H. apply filter_ext_in. intros p Hin.
  rewrite Forall_forall in H. specialize (H p Hin).
  unfold isCompleted. destruct (completed p); [|reflexivity].
  now rewrite H.
Qed.

(** Marking and unmarking a Problem that was open leaves the completed
    history as it was. *)
Lemma filter_mark_unmark (problemId today : string) (ps : list Problem) :
  notYetCompleted problemId ps ->
  filter isCompleted
    (map (fun p => if (id p =? problemId)%string
                   then setIncomplete p else p)
       (map (fun p => if (id p =? problemId)%string
                      then setCompleted p today else p) ps)) =
  filter isCompleted ps.
Proof.
  unfold notYetCompleted. induction ps as [|p ps IH]; intros H.
  - reflexivity.
  - inversion H as [|? ? Hp Hps]; subst. specialize (IH Hps).
    cbn [map]. destruct (String.eqb_spec (id p) problemId) as [E|E].
    + assert (E1 : (id (setCompleted p today) =? problemId)%string = true)
        by (apply String.eqb_eq; exact E).
      rewrite E1. cbn [filter].
      assert (E2 : isCompleted (setIncomplete (setCompleted p today)) = false)
        by reflexivity.
      assert (E3 : isCompleted p = false)
        by (unfold isCompleted; now rewrite (Hp E)).
      rewrite E2, E3. exact IH.
    + rewrite (proj2 (String.eqb_neq _ _) E). cbn [filter]. now rewrite IH.
Qed.

(** The prior Stats enter a recomputation through [longestStreak] only. *)
Lemma recalculate_prior (s s' : Stats) (ps : list Problem) (now : Z) :
  longestStreak s <= longestStreak s' ->
  let r := recalculateStatsFromHistory s ps now in
  let r' := recalculateStatsFromHistory s' ps now in
  currentStreak r' = currentStreak r /\
  totalCompleted r' = totalCompleted r /\
  lastCompletedDate r' = lastCompletedDate r /\
  longestStreak r' = Z.max (longestStreak r) (longestStreak s').
Proof.
  intros H. destruct (completedHistory ps) as [|first rest] eqn:E; cbv zeta.
  - rewrite !recalculate_empty by assumption. simpl. repeat split. lia.
  - rewrite !(recalculate_nonempty _ _ _ _ _ E). simpl. repeat split. lia.
Qed.

Lemma recalculate_idempotent (s : Stats) (ps : list Problem) (now : Z) :
  recalculateStatsFromHistory (recalculateStatsFromHistory s ps now) ps now =
  recalculateStatsFromHistory s ps now.
Proof.
  destruct (completedHistory ps) as [|first rest] eqn:E.
  - rewrite !recalculate_empty by assumption. reflexivity.
  - rewrite !(recalculate_nonempty _ _ _ _ _ E). cbn [longestStreak].
    f_equal. lia.
Qed.

Lemma recalculate_ordered (s : Stats) (ps : list Problem) (now : Z) :
  0 <= longestStreak s ->
  streaksOrdered (recalculateStatsFromHistory s ps now).
Proof.
  intros H. unfold streaksOrdered.
  destruct (completedHistory ps) as [|first rest] eqn:E.
  - rewrite recalculate_empty by assumption. simpl. lia.
  - rewrite (recalculate_nonempty _ _ _ _ _ E). simpl.
    destruct (streakWalk_bounds rest first 1 1) as [B1 B2]; [lia|].
    destruct (numGt _ 1); lia.
Qed.

Lemma step_ordered (st : State) (o : Op) :
  streaksOrdered (stats st) -> streaksOrdered (stats (step st o)).
Proof.
  intros [H0 H1]. destruct o; cbn [step].
  - unfold streaksOrdered. simpl. lia.
  - apply recalculate_ordered, H0.
  - apply recalculate_ordered, H0.
Qed.

End StoreFacts.

(** ** Properties of the recorder and of the engine *)

Section RecorderProperties.

Context {rt : JSDate} {engine : JSArray}.

Lemma listMax_le (l : list Z) :
  forall x, x <= listMax x l /\ Forall (fun r => r <= listMax x l) l.
Proof.
  unfold listMax. induction l as [|y l IH]; intros x; simpl.
  - split; [lia|constructor].
  - destruct (IH (Z.max x y)) as [H1 H2]. split; [lia|].
    constructor; [lia|exact H2].
Qed.

Lemma listMax_in (l : list Z) : forall x, In (listMax x l) (x :: l).
Proof.
  unfold listMax. induction l as [|y l IH]; intros x; simpl.
  - now left.
  - specialize (IH (Z.max x y)).
    destruct (Z.max_spec x y) as [[_ E]|[_ E]]; rewrite E in IH |- *;
      destruct IH as [H|H]; auto.
Qed.

Lemma runningStreaks_hd (rest : list Problem) (prev : Problem) (streak : Z) :
  runningStreaks prev rest streak =
  streak :: tl (runningStreaks prev rest streak).
Proof. destruct rest; reflexivity. Qed.

(** C8: recomputing a second time over the same collection at the same
    moment gives the Stats of the first run. *)
Theorem recompute_idempotent (s : Stats) (ps : list Problem) (now : Z) :
  let once := recalculateStatsFromHistory s ps now in
  recalculateStatsFromHistory once ps now = once.
Proof. apply recalculate_idempotent. Qed.

(** C4: no sequence of markComplete, markIncomplete and recompute
    operations lowers longestStreak, the empty-history branch of the
    recomputation included. *)
Theorem longestStreak_never_decreases (ops : list Op) :
  forall st : State,
    longestStreak (stats st) <= longestStreak (stats (run st ops)).
Proof.
  unfold run. induction ops as [|o ops IH]; intros st; simpl.
  - lia.
  - pose proof (step_longest_le st o). specialize (IH (step st o)). lia.
Qed.

(** C10: from the initial zeroed Stats, whatever the store holds,
    currentStreak stays at most longestStreak after every markComplete,
    markIncomplete and recompute. *)
Theorem currentStreak_le_longestStreak (ps : list Problem) (ops : list Op) :
  let st := run {| problems := ps; stats := initialStats |} ops in
  currentStreak (stats st) <= longestStreak (stats st).
Proof.
  cbv zeta.
  assert (H : forall st, streaksOrdered (stats st) ->
                         streaksOrdered (stats (run st ops))).
  { unfold run. induction ops as [|o ops IH]; intros st Hst; simpl.
    - exact Hst.
    - apply IH, step_ordered, Hst. }
  apply H. unfold streaksOrdered. simpl. lia.
Qed.

(** C2, as the code has it: an id that matches no Problem leaves the
    problem list as it is.  The handler has no result, so nothing is
    signalled to the caller. *)
Theorem markComplete_unknown_id_keeps_problems
  (problemId : string) (now now' : Z) (st : State) :
  occurrences problemId (problems st) = 0%nat ->
  problems (markComplete problemId now now' st) = problems st.
Proof.
  intros H. unfold markComplete. cbn [problems].
  apply map_unknown_id, H.
Qed.

(** C5, as the code has it: when every completed Problem carries its
    date, totalCompleted is the number of completed Problems after
    markIncomplete and after a recomputation; it is so after
    markComplete when it was so before and the id names exactly one
    Problem, not yet completed. *)
Theorem totalCompleted_counts_completed (st : State) :
  datesPresent (problems st) ->
  (forall problemId now,
     let st' := markIncomplete problemId now st in
     totalCompleted (stats st') = countCompleted (problems st')) /\
  (forall now,
     let st' := recompute now st in
     totalCompleted (stats st') = countCompleted (problems st')) /\
  (forall problemId now now',
     occurrences problemId (problems st) = 1%nat ->
     notYetCompleted problemId (problems st) ->
     totalCompleted (stats st) = countCompleted (problems st) ->
     let st' := markComplete problemId now now' st in
     totalCompleted (stats st') = countCompleted (problems st')).
Proof.
  intros Hd. repeat split.
  - intros problemId now. cbv zeta. unfold markIncomplete.
    cbn [stats problems]. rewrite recalculate_total.
    unfold countCompleted.
    now rewrite (datesPresent_filter _ (datesPresent_unmark problemId _ Hd)).
  - intros now. cbv zeta. unfold recompute. cbn [stats problems].
    rewrite recalculate_total. unfold countCompleted.
    now rewrite (datesPresent_filter _ Hd).
  - intros problemId now now' H1 Hopen Hinv. cbv zeta.
    rewrite markComplete_total. unfold markComplete. cbn [problems].
    rewrite (countCompleted_mark _ _ _ Hopen), H1, Hinv. reflexivity.
Qed.

(** C9, as the code has it: marking a not yet completed problem and
    unmarking it leaves currentStreak, totalCompleted and
    lastCompletedDate at what a recomputation over the original store
    gives at the moment of the unmark, hence at their values before the
    mark when those were such a recomputation's result; longestStreak
    is not taken back: it ends at the larger of its recomputed value
    and the currentStreak the mark reached, never below its value
    before the mark. *)
Theorem mark_then_unmark
  (problemId : string) (now now' later : Z) (st : State) :
  notYetCompleted problemId (problems st) ->
  let marked := markComplete problemId now now' st in
  let back := markIncomplete problemId later marked in
  let fresh := recalculateStatsFromHistory (stats st) (problems st) later in
  (currentStreak (stats back) = currentStreak fresh /\
   totalCompleted (stats back) = totalCompleted fresh /\
   lastCompletedDate (stats back) = lastCompletedDate fresh /\
   longestStreak (stats back) =
     Z.max (longestStreak fresh) (currentStreak (stats marked)) /\
   longestStreak (stats st) <= longestStreak (stats back)) /\
  (forall s0,
     stats st = recalculateStatsFromHistory s0 (problems st) later ->
     currentStreak (stats back) = currentStreak (stats st) /\
     totalCompleted (stats back) = totalCompleted (stats st) /\
     lastCompletedDate (stats back) = lastCompletedDate (stats st)).
Proof.
  intros Hopen. cbv zeta.
  assert (E : stats (markIncomplete problemId later
                       (markComplete problemId now now' st)) =
              recalculateStatsFromHistory
                (stats (markComplete problemId now now' st))
                (problems st) later).
  { unfold markIncomplete. cbn [stats].
    apply recalculate_history. unfold markComplete. cbn [problems].
    apply filter_mark_unmark, Hopen. }
  rewrite E.
  assert (Hle : longestStreak (stats st) <=
                longestStreak (stats (markComplete problemId now now' st)))
    by (simpl; lia).
  destruct (recalculate_prior _ _ (problems st) later Hle)
    as (Hc & Ht & Hl & Hm).
  pose proof (recalculate_longest_le (stats st) (problems st) later) as Hge.
  split.
  - repeat split; try assumption.
    + rewrite Hm. cbn [markComplete stats longestStreak currentStreak]. lia.
    + rewrite Hm. lia.
  - intros s0 Hs0. rewrite Hc, Ht, Hl.
    rewrite Hs0 at 1 3 5. rewrite recalculate_idempotent.
    rewrite <- Hs0. auto.
Qed.

End RecorderProperties.

(** ** Sorting by completion date *)

Section SortFacts.

Context {rt : JSDate} {engine : JSArray}.

Lemma numGt_compareFn (x y : Problem) :
  dated x -> dated y ->
  numGt (compareFn x y) 0 = (timeKey y <? timeKey x).
Proof.
  unfold dated, compareFn. intros -> ->. simpl.
  destruct (Z.ltb_spec 0 (timeKey x - timeKey y));
    destruct (Z.ltb_spec (timeKey y) (timeKey x)); lia || reflexivity.
Qed.

(** When every date parses the comparator is consistent, and the
    sorted array is the stable one on every engine. *)
Lemma compareFn_ordered (l : list Problem) :
  Forall dated l -> orderedByKey compareFn timeKey l.
Proof.
  rewrite Forall_forall. intros H a b Ha Hb.
  exists (timeKey a - timeKey b). split; [|reflexivity].
  unfold compareFn. rewrite (H a Ha), (H b Hb). reflexivity.
Qed.

Lemma sortByDate_stable (l : list Problem) :
  Forall dated l -> sortByDate l = stableSort compareFn l.
Proof.
  intros H. unfold sortByDate.
  apply (sort_consistent _ _ timeKey), compareFn_ordered, H.
Qed.

Lemma sortByDate_In (l : list Problem) :
  forall q, In q (sortByDate l) <-> In q l.
Proof.
  intros q. split; apply Permutation_in.
  - apply sortByDate_perm.
  - apply Permutation_sym, sortByDate_perm.
Qed.

Lemma sortByDate_Forall (P : Problem -> Prop) (l : list Problem) :
  Forall P l -> Forall P (sortByDate l).
Proof.
  rewrite !Forall_forall. intros H q Hq. apply H, sortByDate_In, Hq.
Qed.

Lemma insertStable_In (x : Problem) (l : list Problem) :
  forall q, In q (insertStable compareFn x l) <-> q = x \/ In q l.
Proof.
  induction l as [|y l IH]; intros q; simpl.
  - intuition.
  - destruct (numGt (compareFn x y) 0); simpl; rewrite ?IH; intuition.
Qed.

Lemma stableSort_In (l : list Problem) :
  forall q, In q (stableSort compareFn l) <-> In q l.
Proof.
  induction l as [|x l IH]; intros q; simpl; [tauto|].
  rewrite insertStable_In, IH. intuition.
Qed.

Lemma stableSort_Forall (P : Problem -> Prop) (l : list Problem) :
  Forall P l -> Forall P (stableSort compareFn l).
Proof.
  rewrite !Forall_forall. intros H q Hq. apply H, stableSort_In, Hq.
Qed.

Lemma insertStable_sorted (x : Problem) (l : list Problem) :
  dated x -> Forall dated l ->
  StronglySorted keyLe l -> StronglySorted keyLe (insertStable compareFn x l).
Proof.
  intros Hx. induction l as [|y l IH]; intros Hl Hs; simpl.
  - repeat constructor.
  - inversion Hl as [|? ? Hy Hl']; subst.
    inversion Hs as [|? ? Hs' Hall]; subst.
    rewrite (numGt_compareFn x y Hx Hy).
    destruct (Z.ltb_spec (timeKey y) (timeKey x)).
    + constructor; [apply IH; assumption|].
      rewrite Forall_forall. intros q Hq. apply insertStable_In in Hq.
      destruct Hq as [->|Hq]; [unfold keyLe; lia|].
      rewrite Forall_forall in Hall. apply Hall, Hq.
    + constructor; [assumption|]. constructor; [assumption|].
      eapply Forall_impl; [|exact Hall]. unfold keyLe. intros; lia.
Qed.

Lemma stableSort_sorted (l : list Problem) :
  Forall dated l -> StronglySorted keyLe (stableSort compareFn l).
Proof.
  induction l as [|x l IH]; intros H; simpl; [constructor|].
  inversion H; subst.
  apply insertStable_sorted; auto using stableSort_Forall.
Qed.

Lemma sortByDate_sorted (l : list Problem) :
  Forall dated l -> StronglySorted keyLe (sortByDate l).
Proof.
  intros H. rewrite (sortByDate_stable l H). apply stableSort_sorted, H.
Qed.

(** Inserting below a last element that is at least as late. *)
Lemma insertStable_snoc (p x : Problem) (l : list Problem) :
  dated p -> dated x -> timeKey p <= timeKey x ->
  insertStable compareFn p (l ++ [x]) = insertStable compareFn p l ++ [x].
Proof.
  intros Hp Hx Hle. induction l as [|y l IH]; simpl.
  - rewrite (numGt_compareFn p x Hp Hx).
    destruct (Z.ltb_spec (timeKey x) (timeKey p)); [lia|reflexivity].
  - destruct (numGt (compareFn p y) 0); [now rewrite IH|reflexivity].
Qed.

Lemma insertStable_keys (p p' : Problem) (l l' : list Problem) :
  timeOf p = timeOf p' -> map timeOf l = map timeOf l' ->
  map timeOf (insertStable compareFn p l) =
  map timeOf (insertStable compareFn p' l').
Proof.
  intros Hp. revert l'. induction l as [|y l IH]; intros [|y' l'] H;
    try discriminate H; simpl.
  - now rewrite Hp.
  - injection H as Hy Hl.
    assert (E : compareFn p y = compareFn p' y')
      by (unfold compareFn; now rewrite Hp, Hy).
    rewrite E. destruct (numGt (compareFn p' y') 0); simpl.
    + now rewrite Hy, (IH l' Hl).
    + now rewrite Hp, Hy, Hl.
Qed.

(** The latest element of all goes, as far as dates tell, to the end. *)
Lemma insertStable_latest (x : Problem) (l : list Problem) :
  dated x -> Forall dated l ->
  Forall (fun q => timeKey q <= timeKey x) l ->
  StronglySorted keyLe l ->
  map timeOf (insertStable compareFn x l) = map timeOf (l ++ [x]).
Proof.
  intros Hx. induction l as [|y l IH]; intros Hd Hb Hs; simpl.
  - reflexivity.
  - inversion Hd as [|? ? Hy Hd']; subst.
    inversion Hb as [|? ? Hby Hb']; subst.
    inversion Hs as [|? ? Hs' Hall]; subst.
    rewrite (numGt_compareFn x y Hx Hy).
    destruct (Z.ltb_spec (timeKey y) (timeKey x)); simpl.
    + f_equal. apply IH; assumption.
    + assert (Ey : timeKey y = timeKey x) by lia.
      assert (Et : timeOf y = timeOf x) by (rewrite Hx, Hy; congruence).
      rewrite Et. f_equal.
      clear IH Hs' Hd Hb Hs.
      induction l as [|z l IHl]; simpl.
      * reflexivity.
      * inversion Hd' as [|? ? Hz Hd'']; subst.
        inversion Hb' as [|? ? Hbz Hb'']; subst.
        inversion Hall as [|? ? Hyz Hall']; subst.
        unfold keyLe in Hyz.
        assert (Ez : timeOf z = timeOf x)
          by (rewrite Hx, Hz; f_equal; lia).
        rewrite Ez. f_equal. apply IHl; assumption.
Qed.

Lemma stableSort_latest (x : Problem) (l1 l2 : list Problem) :
  dated x -> Forall dated l1 -> Forall dated l2 ->
  Forall (fun q => timeKey q <= timeKey x) l1 ->
  Forall (fun q => timeKey q <= timeKey x) l2 ->
  map timeOf (stableSort compareFn (l1 ++ x :: l2)) =
  map timeOf (stableSort compareFn (l1 ++ l2) ++ [x]).
Proof.
  intros Hx Hd1 Hd2 Hb1 Hb2.
  induction l1 as [|y l1 IH]; simpl.
  - apply insertStable_latest; auto using stableSort_Forall, stableSort_sorted.
  - inversion Hd1; inversion Hb1; subst.
    rewrite <- insertStable_snoc by assumption.
    apply insertStable_keys; [reflexivity|]. apply IH; assumption.
Qed.

Lemma sortByDate_latest (x : Problem) (l1 l2 : list Problem) :
  dated x -> Forall dated l1 -> Forall dated l2 ->
  Forall (fun q => timeKey q <= timeKey x) l1 ->
  Forall (fun q => timeKey q <= timeKey x) l2 ->
  map timeOf (sortByDate (l1 ++ x :: l2)) =
  map timeOf (sortByDate (l1 ++ l2) ++ [x]).
Proof.
  intros Hx Hd1 Hd2 Hb1 Hb2.
  rewrite (sortByDate_stable (l1 ++ x :: l2))
    by (apply Forall_app; split; [|constructor]; assumption).
  rewrite (sortByDate_stable (l1 ++ l2))
    by (apply Forall_app; split; assumption).
  apply stableSort_latest; assumption.
Qed.

(** An element later than all that follow it passes them all. *)
Lemma insertStable_past (x : Problem) (l : list Problem) :
  dated x -> Forall dated l ->
  Forall (fun q => timeKey q < timeKey x) l ->
  insertStable compareFn x l = l ++ [x].
Proof.
  intros Hx Hd Hb. induction l as [|y l IH]; simpl; [reflexivity|].
  inversion Hd as [|? ? Hy Hd']; subst.
  inversion Hb as [|? ? Hby Hb']; subst.
  rewrite (numGt_compareFn x y Hx Hy).
  destruct (Z.ltb_spec (timeKey y) (timeKey x)); [|lia].
  now rewrite IH.
Qed.

(** The last of the latest completions, in the order of the store, is
    the last element of the sorted array. *)
Lemma stableSort_last (x : Problem) (l1 l2 : list Problem) :
  dated x -> Forall dated l1 -> Forall dated l2 ->
  Forall (fun q => timeKey q <= timeKey x) l1 ->
  Forall (fun q => timeKey q < timeKey x) l2 ->
  stableSort compareFn (l1 ++ x :: l2) =
  stableSort compareFn (l1 ++ l2) ++ [x].
Proof.
  intros Hx Hd1 Hd2 Hb1 Hb2.
  induction l1 as [|y l1 IH]; simpl.
  - apply insertStable_past; [assumption| |].
    + apply stableSort_Forall, Hd2.
    + apply stableSort_Forall, Hb2.
  - inversion Hd1; inversion Hb1; subst.
    rewrite IH by assumption.
    apply insertStable_snoc; assumption.
Qed.

Lemma sortByDate_last (x : Problem) (l1 l2 : list Problem) :
  dated x -> Forall dated l1 -> Forall dated l2 ->
  Forall (fun q => timeKey q <= timeKey x) l1 ->
  Forall (fun q => timeKey q < timeKey x) l2 ->
  sortByDate (l1 ++ x :: l2) = sortByDate (l1 ++ l2) ++ [x].
Proof.
  intros Hx Hd1 Hd2 Hb1 Hb2.
  rewrite (sortByDate_stable (l1 ++ x :: l2))
    by (apply Forall_app; split; [|constructor]; assumption).
  rewrite (sortByDate_stable (l1 ++ l2))
    by (apply Forall_app; split; assumption).
  apply stableSort_last; assumption.
Qed.

(** The last element of a sorted array is the latest. *)
Lemma sorted_last (l : list Problem) :
  StronglySorted keyLe l ->
  forall q d, In q l -> timeKey q <= timeKey (last l d).
Proof.
  induction 1 as [|a l Hs IH Ha]; intros q d Hq; [contradiction|].
  destruct l as [|b l].
  - destruct Hq as [->|[]]. cbn. lia.
  - change (last (a :: b :: l) d) with (last (b :: l) d).
    destruct Hq as [->|Hq].
    + rewrite Forall_forall in Ha.
      apply (Ha (last (b :: l) d)).
      destruct (exists_last (l := b :: l) ltac:(discriminate)) as (l0 & z & El).
      rewrite El, last_last. apply in_or_app. right. now left.
    + apply IH, Hq.
Qed.

End SortFacts.

(** ** The walk, element by element *)

Section WalkFacts.

Context {rt : JSDate} {engine : JSArray}.

Lemma streakStep_ext (prev cur prev' cur' : Problem) (streak : Z) :
  timeOf prev = timeOf prev' -> timeOf cur = timeOf cur' ->
  streakStep prev cur streak = streakStep prev' cur' streak.
Proof. unfold streakStep. intros -> ->. reflexivity. Qed.

(** The loop looks at the time values of the elements only. *)
Lemma streakWalk_ext (rest : list Problem) :
  forall rest' prev prev' streak longest,
    map timeOf (prev :: rest) = map timeOf (prev' :: rest') ->
    streakWalk prev rest streak longest =
    streakWalk prev' rest' streak longest.
Proof.
  induction rest as [|cur rest IH]; intros [|cur' rest'] prev prev' streak longest H;
    try discriminate H.
  - reflexivity.
  - cbn [map] in H. injection H as Hp Hc Hr. cbn [streakWalk].
    rewrite (streakStep_ext prev cur prev' cur' streak Hp Hc).
    apply IH. cbn [map]. now rewrite Hc, Hr.
Qed.

(** One more element at the end is one more turn of the loop. *)
Lemma streakWalk_snoc (rest : list Problem) (x : Problem) :
  forall prev streak longest,
    let w := streakWalk prev rest streak longest in
    let streak' := streakStep (last rest prev) x (fst w) in
    streakWalk prev (rest ++ [x]) streak longest =
    (streak', Z.max (snd w) streak').
Proof.
  induction rest as [|cur rest IH]; intros prev streak longest; cbv zeta.
  - cbn [app streakWalk last fst snd].
    destruct (Z.ltb_spec longest (streakStep prev x streak)); f_equal; lia.
  - cbn [app streakWalk]. rewrite IH. cbv zeta.
    rewrite (last_cons rest cur prev). reflexivity.
Qed.

Lemma last_map_timeOf (l : list Problem) :
  forall d, last (map timeOf l) (timeOf d) = timeOf (last l d).
Proof.
  induction l as [|y l IH]; intros d; [reflexivity|].
  destruct l as [|z l]; [reflexivity|].
  change (last (map timeOf (z :: l)) (timeOf d) = timeOf (last (z :: l) d)).
  apply IH.
Qed.

End WalkFacts.

(** ** Whole days *)

Lemma msPerDay_value : msPerDay = 86400000.
Proof. reflexivity. Qed.

Lemma roundDays_midnights (off a b : Z) :
  roundDays (numSub (Some (midnight off a)) (Some (midnight off b))) =
  Some (localDay off a - localDay off b).
Proof.
  unfold roundDays, numSub, option_map, midnight. f_equal.
  generalize (localDay off a) (localDay off b). intros x y.
  rewrite msPerDay_value. Z.div_mod_to_equations. lia.
Qed.

Lemma floorDays_since_midnight (off a b : Z) :
  floorDays (numSub (Some a) (Some (midnight off b))) =
  Some (localDay off a - localDay off b).
Proof.
  unfold floorDays, numSub, option_map, midnight, localDay. f_equal.
  rewrite msPerDay_value. Z.div_mod_to_equations. lia.
Qed.

Lemma localDay_le (off a b : Z) :
  a <= b -> localDay off a <= localDay off b.
Proof.
  intros H. unfold localDay. apply Z.div_le_mono; [reflexivity|lia].
Qed.

Lemma midnight_inWindow (off t : Z) :
  inWindow off t -> inWindow off (midnight off t).
Proof.
  unfold inWindow, midnight, localDay. rewrite msPerDay_value. intros H.
  Z.div_mod_to_equations. lia.
Qed.

Lemma localDay_midnight (off t : Z) :
  localDay off (midnight off t) = localDay off t.
Proof.
  unfold midnight. generalize (localDay off t). intros x.
  unfold localDay. rewrite msPerDay_value. Z.div_mod_to_equations. lia.
Qed.

Lemma midnight_inj (off a b : Z) :
  midnight off a = midnight off b -> localDay off a = localDay off b.
Proof. unfold midnight. rewrite msPerDay_value. lia. Qed.

Lemma localDay_before (off t : Z) :
  localDay off (t - msPerDay) = localDay off t - 1.
Proof.
  unfold localDay. rewrite msPerDay_value. Z.div_mod_to_equations. lia.
Qed.

(** ** The calendar of a regular zone *)

Section Calendar.

Context {rt : JSDate} {engine : JSArray} {off : Z} (Hreg : RegularZone rt off).

(** Two date strings agree exactly when their days do. *)
Lemma toDateString_eqb (a b : Z) :
  inWindow off a -> inWindow off b ->
  (toDateString a =? toDateString b)%string =
  (localDay off a =? localDay off b).
Proof.
  intros Ha Hb.
  destruct (Z.eqb_spec (localDay off a) (localDay off b)) as [E|E].
  - apply String.eqb_eq. apply (toDateString_day rt off Hreg); assumption.
  - apply String.eqb_neq. intros H. apply E, midnight_inj.
    pose proof (getTime_toDateString rt off Hreg a Ha) as Ea.
    pose proof (getTime_toDateString rt off Hreg b Hb) as Eb.
    rewrite H in Ea. congruence.
Qed.

(** A date written by [markComplete] at [t], as the engine reads it. *)
Lemma reformat_toDateString (t : Z) :
  inWindow off t -> reformat (toDateString t) = toDateString t.
Proof.
  intros Ht. unfold reformat.
  rewrite (getTime_toDateString rt off Hreg t Ht).
  apply (toDateString_day rt off Hreg); auto using midnight_inWindow.
  apply localDay_midnight.
Qed.

Lemma truthy_toDateString (t : Z) :
  inWindow off t -> truthy (Some (toDateString t)) = true.
Proof.
  intros Ht. simpl. apply negb_true_iff, String.eqb_neq.
  apply (toDateString_nonempty rt off Hreg), Ht.
Qed.

(** The incremental streak, by the local days of the last completion
    and of the two readings of the clock. *)
Lemma newCurrentStreak_by_days (s : Stats) (now now' t : Z) :
  inWindow off now -> inWindow off now' -> inWindow off (now' - msPerDay) ->
  inWindow off t ->
  lastCompletedDate s = Some (toDateString t) ->
  newCurrentStreak s (toDateString now) now' =
  if localDay off t =? localDay off now' - 1 then currentStreak s + 1
  else if localDay off t =? localDay off now then currentStreak s
  else 1.
Proof.
  intros Hn Hn' Hy Ht Hl. unfold newCurrentStreak. rewrite Hl.
  rewrite (truthy_toDateString t Ht).
  rewrite (reformat_toDateString t Ht).
  rewrite (minusOneDay_day rt off Hreg now' Hn' Hy).
  rewrite !toDateString_eqb by assumption.
  rewrite localDay_before.
  destruct (Z.eqb_spec (localDay off t) (localDay off now' - 1));
    [reflexivity|].
  destruct (Z.eqb_spec (localDay off t) (localDay off now)); reflexivity.
Qed.

End Calendar.

(** ** The incremental update against the recomputation *)

Section Incremental.

Context {rt : JSDate} {engine : JSArray} {off : Z} (Hreg : RegularZone rt off).

Lemma occurrences_one_split (problemId : string) (ps : list Problem) :
  occurrences problemId ps = 1%nat ->
  exists l1 p l2,
    ps = l1 ++ p :: l2 /\ id p = problemId /\
    occurrences problemId l1 = 0%nat /\ occurrences problemId l2 = 0%nat.
Proof.
  unfold occurrences. induction ps as [|q ps IH]; intros H.
  - discriminate H.
  - cbn [filter] in H. destruct (String.eqb_spec (id q) problemId) as [E|E].
    + exists [], q, ps. cbn [List.length] in H. repeat split; auto.
    + destruct (IH H) as (l1 & p & l2 & -> & Hp & H1 & H2).
      exists (q :: l1), p, l2. repeat split; auto.
      cbn [filter]. destruct (String.eqb_spec (id q) problemId); [contradiction|exact H1].
Qed.

(** What a recorded completion date tells the engine. *)
Lemma recorded_dated (now0 now : Z) (q : Problem) :
  now0 <= now -> inWindow off now ->
  (exists t, inWindow off t /\ t <= now0 /\
             completedDate q = Some (toDateString t)) ->
  dated q /\
  timeKey q <= midnight off now /\
  (timeKey q = midnight off now ->
   completedDate q = Some (toDateString now)).
Proof.
  intros Hle Hn (t & Hw & Ht & Hq).
  assert (Hk : timeOf q = Some (midnight off t)).
  { unfold timeOf. rewrite Hq. apply (getTime_toDateString rt off Hreg), Hw. }
  assert (Hkey : timeKey q = midnight off t)
    by (unfold timeKey; now rewrite Hk).
  repeat split.
  - unfold dated. now rewrite Hkey.
  - rewrite Hkey. pose proof (localDay_le off t now ltac:(lia)).
    unfold midnight. rewrite msPerDay_value. lia.
  - rewrite Hkey. intros E. rewrite Hq. f_equal.
    apply (toDateString_day rt off Hreg); auto. now apply midnight_inj.
Qed.

(** The recomputation over a history that gained one completion, today's. *)
Lemma recalculate_after_mark
  (s : Stats) (ps' : list Problem) (now now0 : Z)
  (c1 c2 : list Problem) (x : Problem) :
  inWindow off now -> now0 <= now ->
  filter isCompleted ps' = c1 ++ x :: c2 ->
  completedDate x = Some (toDateString now) ->
  Forall (fun q => exists t, inWindow off t /\ t <= now0 /\
                   completedDate q = Some (toDateString t)) (c1 ++ c2) ->
  let old := sortByDate (c1 ++ c2) in
  let w := match old with
           | [] => (1, 1)
           | first :: rest =>
               let w := streakWalk first rest 1 1 in
               let streak := streakStep (last rest first) x (fst w) in
               (streak, Z.max (snd w) streak)
           end in
  recalculateStatsFromHistory s ps' now =
  {| totalCompleted := Z.of_nat (List.length old) + 1;
     currentStreak := fst w;
     longestStreak := Z.max (longestStreak s) (snd w);
     lastCompletedDate := Some (toDateString now) |}.
Proof.
  intros Hn Hle Hf Hx Hrec. cbv zeta.
  assert (Hxt : timeOf x = Some (midnight off now)).
  { unfold timeOf. rewrite Hx. apply (getTime_toDateString rt off Hreg), Hn. }
  assert (Hxk : timeKey x = midnight off now)
    by (unfold timeKey; now rewrite Hxt).
  assert (Hxd : dated x) by (unfold dated; now rewrite Hxk).
  assert (Hfacts : Forall (fun q => dated q /\ timeKey q <= timeKey x /\
                     (timeKey q = timeKey x ->
                      completedDate q = Some (toDateString now))) (c1 ++ c2)).
  { eapply Forall_impl; [|exact Hrec]. intros q Hq. rewrite Hxk.
    apply (recorded_dated now0 now q Hle Hn Hq). }
  assert (Hd : Forall dated (c1 ++ c2))
    by (eapply Forall_impl; [|exact Hfacts]; intros q Hq; apply Hq).
  assert (Hb : Forall (fun q => timeKey q <= timeKey x) (c1 ++ c2))
    by (eapply Forall_impl; [|exact Hfacts]; intros q Hq; apply Hq).
  apply Forall_app in Hd. apply Forall_app in Hb.
  pose proof (sortByDate_latest x c1 c2 Hxd (proj1 Hd) (proj2 Hd)
                (proj1 Hb) (proj2 Hb)) as Hkeys.
  set (old := sortByDate (c1 ++ c2)) in *.
  destruct (completedHistory ps') as [|first' rest'] eqn:E'.
  { exfalso. unfold completedHistory in E'. rewrite Hf in E'.
    apply sortByDate_nil in E'. destruct c1; discriminate E'. }
  rewrite (recalculate_nonempty _ _ _ _ _ E').
  unfold completedHistory in E'. rewrite Hf in E'. rewrite E' in Hkeys.
  assert (Hlast : timeOf (last rest' first') = Some (timeKey x) /\
                  completedDate (last rest' first') = Some (toDateString now)).
  { assert (Hin : In (last rest' first') (c1 ++ x :: c2)).
    { apply sortByDate_In. rewrite E'.
      rewrite <- (last_cons rest' first' first').
      destruct (exists_last (l := first' :: rest') ltac:(discriminate))
        as (l0 & a & El). rewrite El, last_last.
      apply in_or_app. right. now left. }
    assert (Ht : timeOf (last rest' first') = Some (timeKey x)).
    { rewrite <- (last_cons rest' first' first'), <- last_map_timeOf.
      rewrite Hkeys, map_app. cbn [map]. rewrite last_last.
      now rewrite Hxt, Hxk. }
    split; [exact Ht|].
    apply in_app_or in Hin. cbn [In] in Hin.
    assert (Hin' : last rest' first' = x \/ In (last rest' first') (c1 ++ c2))
      by (rewrite in_app_iff; destruct Hin as [H|[H|H]]; auto).
    destruct Hin' as [->|Hin']; [exact Hx|].
    rewrite Forall_forall in Hfacts.
    destruct (Hfacts _ Hin') as (Hdq & _ & Heq). apply Heq.
    unfold dated in Hdq. rewrite Hdq in Ht. congruence. }
  destruct Hlast as [Hlt Hld]. rewrite Hlt, Hld, Hxk.
  rewrite floorDays_since_midnight.
  replace (numGt (Some (localDay off now - localDay off now)) 1) with false
    by (rewrite Z.sub_diag; reflexivity).
  assert (Hlen : Z.of_nat (List.length (first' :: rest')) =
                 Z.of_nat (List.length old) + 1).
  { rewrite <- E'. subst old. rewrite !sortByDate_length.
    rewrite !length_app. cbn [List.length]. lia. }
  rewrite Hlen.
  assert (Hw : streakWalk first' rest' 1 1 =
               match old with
               | [] => (1, 1)
               | first :: rest =>
                   (streakStep (last rest first) x (fst (streakWalk first rest 1 1)),
                    Z.max (snd (streakWalk first rest 1 1))
                      (streakStep (last rest first) x (fst (streakWalk first rest 1 1))))
               end).
  { destruct old as [|first rest].
    - cbn [app map] in Hkeys.
      destruct rest' as [|y rest']; [reflexivity|discriminate Hkeys].
    - rewrite <- (streakWalk_snoc rest x first 1 1).
      apply streakWalk_ext. exact Hkeys. }
  rewrite Hw. reflexivity.
Qed.

Lemma streakStep_midnights (prev cur : Problem) (a b streak : Z) :
  timeOf prev = Some (midnight off a) ->
  timeOf cur = Some (midnight off b) ->
  streakStep prev cur streak =
  if localDay off b - localDay off a =? 1 then streak + 1
  else if 1 <? localDay off b - localDay off a then 1
  else streak.
Proof.
  unfold streakStep. intros -> ->. rewrite roundDays_midnights. reflexivity.
Qed.

End Incremental.

(** ** What the recorder leaves alone *)

Section RecorderFrame.

Context {rt : JSDate} {engine : JSArray}.

Lemma map_unchangedFields (problemId : string) (f : Problem -> Problem)
  (ps : list Problem) :
  (forall p, unchangedFields (f p) = unchangedFields p) ->
  map unchangedFields (map (fun p => if (id p =? problemId)%string then f p else p) ps)
  = map unchangedFields ps.
Proof.
  intros Hf. rewrite map_map. apply map_ext. intros p.
  destruct (id p =? problemId)%string; [apply Hf|reflexivity].
Qed.

Lemma nth_error_update (problemId : string) (f : Problem -> Problem)
  (ps : list Problem) (i : nat) (p : Problem) :
  nth_error ps i = Some p -> id p <> problemId ->
  nth_error (map (fun p => if (id p =? problemId)%string then f p else p) ps) i
  = Some p.
Proof.
  intros Hn Hid. rewrite nth_error_map, Hn. cbn [option_map].
  now rewrite (proj2 (String.eqb_neq _ _) Hid).
Qed.

(** X1: markComplete and markIncomplete never add, drop or reorder
    Problems and never change an id, a title, a url or a platform; a
    Problem whose id is not the one passed stays as it is, at its place. *)
Theorem recorder_keeps_the_list
  (problemId : string) (now now' : Z) (st : State) :
  let marked := markComplete problemId now now' st in
  let unmarked := markIncomplete problemId now st in
  map unchangedFields (problems marked) = map unchangedFields (problems st) /\
  map unchangedFields (problems unmarked) = map unchangedFields (problems st) /\
  (forall i p, nth_error (problems st) i = Some p -> id p <> problemId ->
     nth_error (problems marked) i = Some p /\
     nth_error (problems unmarked) i = Some p).
Proof.
  cbv zeta. unfold markComplete, markIncomplete. cbn [problems].
  split; [apply map_unchangedFields; reflexivity|].
  split; [apply map_unchangedFields; reflexivity|].
  intros i p Hn Hid. split; apply nth_error_update; assumption.
Qed.

(** Unmarking Problems that are open changes nothing the engine reads. *)
Lemma filter_unmark_open (problemId : string) (ps : list Problem) :
  notYetCompleted problemId ps ->
  filter isCompleted
    (map (fun p => if (id p =? problemId)%string
                   then setIncomplete p else p) ps) =
  filter isCompleted ps.
Proof.
  unfold notYetCompleted. induction ps as [|p ps IH]; intros H.
  - reflexivity.
  - inversion H as [|? ? Hp Hps]; subst. specialize (IH Hps).
    cbn [map filter]. destruct (String.eqb_spec (id p) problemId) as [E|E].
    + assert (E1 : isCompleted (setIncomplete p) = false) by reflexivity.
      assert (E2 : isCompleted p = false)
        by (unfold isCompleted; now rewrite (Hp E)).
      rewrite E1, E2. exact IH.
    + now rewrite IH.
Qed.

(** X2: markIncomplete with an id whose Problems are all open, or that
    no Problem has, leaves the Stats of a plain recomputation over the
    store; with an id that no Problem has it is that recomputation. *)
Theorem markIncomplete_open_is_recompute
  (problemId : string) (now : Z) (st : State) :
  notYetCompleted problemId (problems st) ->
  stats (markIncomplete problemId now st) = stats (recompute now st) /\
  (occurrences problemId (problems st) = 0%nat ->
   markIncomplete problemId now st = recompute now st).
Proof.
  intros Hopen. unfold markIncomplete, recompute. cbn [stats]. split.
  - apply recalculate_history, filter_unmark_open, Hopen.
  - intros H0. now rewrite (map_unknown_id _ _ _ H0).
Qed.

Lemma unmark_twice (problemId : string) (ps : list Problem) :
  let f := fun p => if (id p =? problemId)%string
                    then setIncomplete p else p in
  map f (map f ps) = map f ps.
Proof.
  cbv zeta. rewrite map_map. apply map_ext. intros p.
  destruct (id p =? problemId)%string eqn:E.
  - cbn [id setIncomplete]. now rewrite E.
  - now rewrite E.
Qed.

(** X3: unmarking the same id a second time at the same moment changes
    nothing. *)
Theorem markIncomplete_idempotent
  (problemId : string) (now : Z) (st : State) :
  let once := markIncomplete problemId now st in
  markIncomplete problemId now once = once.
Proof.
  cbv zeta. unfold markIncomplete. cbn [problems stats].
  rewrite unmark_twice. f_equal. apply recalculate_idempotent.
Qed.

(** X4: of the Stats it starts from, the recomputation reads
    longestStreak only: currentStreak, totalCompleted and
    lastCompletedDate come out the same from any prior Stats, and all
    of the result does when the prior longestStreak is the same. *)
Theorem recompute_reads_longestStreak_only
  (s s' : Stats) (ps : list Problem) (now : Z) :
  let r := recalculateStatsFromHistory s ps now in
  let r' := recalculateStatsFromHistory s' ps now in
  currentStreak r = currentStreak r' /\
  totalCompleted r = totalCompleted r' /\
  lastCompletedDate r = lastCompletedDate r' /\
  (longestStreak s = longestStreak s' -> r = r').
Proof.
  cbv zeta. destruct (completedHistory ps) as [|first rest] eqn:E.
  - rewrite !recalculate_empty by assumption. cbn. repeat split.
    now intros ->.
  - rewrite !(recalculate_nonempty _ _ _ _ _ E). cbn. repeat split.
    now intros ->.
Qed.

Lemma streakStep_range (prev cur : Problem) (streak : Z) :
  1 <= streak ->
  1 <= streakStep prev cur streak <= streak + 1.
Proof.
  intros H. unfold streakStep.
  destruct (numEq _ 1); [lia|]. destruct (numGt _ 1); lia.
Qed.

(** The running streak is at least 1 and grows by at most 1 a turn. *)
Lemma streakWalk_range (rest : list Problem) :
  forall prev streak longest,
    1 <= streak ->
    1 <= fst (streakWalk prev rest streak longest)
      <= streak + Z.of_nat (List.length rest).
Proof.
  induction rest as [|cur rest IH]; intros prev streak longest H.
  - simpl. lia.
  - cbn [streakWalk List.length].
    pose proof (streakStep_range prev cur streak H) as Hs.
    match goal with
    | |- context [streakWalk cur rest ?a ?b] =>
        specialize (IH cur a b (proj1 Hs))
    end.
    rewrite Nat2Z.inj_succ. lia.
Qed.

(** X5: recomputing the same store at a later moment gives the same
    totalCompleted, longestStreak and lastCompletedDate, and a
    currentStreak that is either the same or 0, never larger and never
    negative. *)
Theorem recompute_later
  (s : Stats) (ps : list Problem) (now later : Z) :
  now <= later ->
  let r := recalculateStatsFromHistory s ps now in
  let r' := recalculateStatsFromHistory s ps later in
  totalCompleted r' = totalCompleted r /\
  longestStreak r' = longestStreak r /\
  lastCompletedDate r' = lastCompletedDate r /\
  (currentStreak r' = currentStreak r \/ currentStreak r' = 0) /\
  0 <= currentStreak r' <= currentStreak r.
Proof.
  intros Hle. cbv zeta.
  destruct (completedHistory ps) as [|first rest] eqn:E.
  - rewrite !recalculate_empty by assumption. cbn. repeat split; auto; lia.
  - rewrite !(recalculate_nonempty _ _ _ _ _ E).
    cbn [totalCompleted longestStreak lastCompletedDate currentStreak].
    pose proof (streakWalk_range rest first 1 1 ltac:(lia)) as Hw.
    set (w := fst (streakWalk first rest 1 1)) in *.
    destruct (timeOf (last rest first)) as [t|];
      cbn [numSub floorDays option_map numGt].
    + assert (Hd : (now - t) / msPerDay <= (later - t) / msPerDay)
        by (apply Z.div_le_mono; [reflexivity|lia]).
      destruct (Z.ltb_spec 1 ((now - t) / msPerDay));
        destruct (Z.ltb_spec 1 ((later - t) / msPerDay));
        repeat split; try reflexivity; lia.
    + repeat split; try reflexivity; lia.
Qed.

Lemma recalculate_counted (s : Stats) (ps : list Problem) (now : Z) :
  streakCounted (recalculateStatsFromHistory s ps now).
Proof.
  unfold streakCounted.
  destruct (completedHistory ps) as [|first rest] eqn:E.
  - rewrite recalculate_empty by assumption. cbn. lia.
  - rewrite (recalculate_nonempty _ _ _ _ _ E).
    cbn [currentStreak totalCompleted List.length].
    pose proof (streakWalk_range rest first 1 1 ltac:(lia)) as Hw.
    rewrite Nat2Z.inj_succ. destruct (numGt _ 1); lia.
Qed.

Lemma newCurrentStreak_cases (s : Stats) (today : string) (now' : Z) :
  newCurrentStreak s today now' = currentStreak s + 1 \/
  newCurrentStreak s today now' = 1 \/
  newCurrentStreak s today now' = currentStreak s /\
  lastCompletedDate s <> None.
Proof.
  unfold newCurrentStreak. destruct (lastCompletedDate s) as [d|]; auto.
  destruct (truthy (Some d)); auto.
  destruct (_ =? _)%string; auto.
  destruct (negb _); auto. right. right. split; [reflexivity|discriminate].
Qed.

Lemma step_counted (st : State) (o : Op) :
  streakCounted (stats st) -> streakCounted (stats (step st o)).
Proof.
  intros H. destruct o; cbn [step].
  - unfold streakCounted in *. cbn [markComplete stats currentStreak totalCompleted].
    destruct (newCurrentStreak_cases (stats st) (toDateString now) now')
      as [E|[E|[E _]]]; rewrite E; lia.
  - apply recalculate_counted.
  - apply recalculate_counted.
Qed.

(** X6: from the zeroed Stats, whatever the store holds, currentStreak
    is never negative and never above totalCompleted after any sequence
    of markComplete, markIncomplete and recompute. *)
Theorem currentStreak_within_totalCompleted
  (ps : list Problem) (ops : list Op) :
  let st := run {| problems := ps; stats := initialStats |} ops in
  0 <= currentStreak (stats st) <= totalCompleted (stats st).
Proof.
  cbv zeta.
  assert (H : forall st, streakCounted (stats st) ->
                         streakCounted (stats (run st ops))).
  { unfold run. induction ops as [|o ops IH]; intros st Hst; simpl.
    - exact Hst.
    - apply IH, step_counted, Hst. }
  apply H. unfold streakCounted. simpl. lia.
Qed.

End RecorderFrame.

(** ** Streaks by calendar day *)

Section CalendarDays.

Context {rt : JSDate} {engine : JSArray} {off : Z} (Hreg : RegularZone rt off).

(** X7: on a host in a zone with a fixed offset from UTC (no daylight
    saving), for local dates from Fri Jan 02 1970 to the end of year
    9999, markComplete counts by local calendar day, the day of today
    taken from its first reading of the clock and the day of yesterday
    from its second: with no completion before, the streak is 1; with
    a last completion recorded on the day before that of the second
    reading it grows by 1; otherwise, recorded on the day of the first
    reading, it stays; otherwise it restarts at 1.  When both readings
    fall on one local day that is: the day before, plus 1; the same
    day, unchanged; any other day, 1. *)
Theorem markComplete_streak_by_calendar_day
  (problemId : string) (now now' : Z) (st : State) :
  inWindow off now -> inWindow off now' -> inWindow off (now' - msPerDay) ->
  let streak := currentStreak (stats st) in
  let streak' := currentStreak (stats (markComplete problemId now now' st)) in
  (lastCompletedDate (stats st) = None -> streak' = 1) /\
  (forall t, inWindow off t ->
     lastCompletedDate (stats st) = Some (toDateString t) ->
     let lastDay := localDay off t in
     (lastDay = localDay off now' - 1 -> streak' = streak + 1) /\
     (lastDay <> localDay off now' - 1 -> lastDay = localDay off now ->
      streak' = streak) /\
     (lastDay <> localDay off now' - 1 -> lastDay <> localDay off now ->
      streak' = 1)) /\
  (localDay off now' = localDay off now ->
   forall t, inWindow off t ->
     lastCompletedDate (stats st) = Some (toDateString t) ->
     let gap := localDay off now - localDay off t in
     (gap = 1 -> streak' = streak + 1) /\
     (gap = 0 -> streak' = streak) /\
     (gap <> 0 -> gap <> 1 -> streak' = 1)).
Proof.
  intros Hn Hn' Hy. cbv zeta. cbn [markComplete stats currentStreak].
  split; [|split].
  - intros Hl. unfold newCurrentStreak. now rewrite Hl.
  - intros t Ht Hl.
    rewrite (newCurrentStreak_by_days Hreg (stats st) now now' t) by assumption.
    destruct (Z.eqb_spec (localDay off t) (localDay off now' - 1));
      destruct (Z.eqb_spec (localDay off t) (localDay off now));
      repeat split; intros; try reflexivity; lia.
  - intros Hsame t Ht Hl.
    rewrite (newCurrentStreak_by_days Hreg (stats st) now now' t) by assumption.
    destruct (Z.eqb_spec (localDay off t) (localDay off now' - 1));
      destruct (Z.eqb_spec (localDay off t) (localDay off now));
      repeat split; intros; try reflexivity; lia.
Qed.

(** X8: on a host in a zone with a fixed offset from UTC (no daylight
    saving), when the dates of all completed Problems parse and a
    completed Problem with the latest date of all had it recorded at
    a moment [t] (local date from 1970 to 9999), the recomputation
    gives a currentStreak of 0 exactly when now is two or more local
    calendar days after the day of [t], and of at least 1 otherwise. *)
Theorem recompute_lapse_by_calendar_day
  (s : Stats) (ps : list Problem) (now t : Z) (latest : Problem) :
  Forall dated (filter isCompleted ps) ->
  In latest (filter isCompleted ps) ->
  Forall (fun q => timeKey q <= timeKey latest) (filter isCompleted ps) ->
  inWindow off t ->
  completedDate latest = Some (toDateString t) ->
  let r := recalculateStatsFromHistory s ps now in
  (currentStreak r = 0 <-> 2 <= localDay off now - localDay off t) /\
  (localDay off now - localDay off t < 2 -> 1 <= currentStreak r).
Proof.
  intros Hd Hin Hmax Ht Hdate. cbv zeta.
  assert (Hk : timeKey latest = midnight off t).
  { unfold timeKey, timeOf. rewrite Hdate.
    now rewrite (getTime_toDateString rt off Hreg t Ht). }
  destruct (completedHistory ps) as [|first rest] eqn:E.
  { apply sortByDate_nil in E. rewrite E in Hin. contradiction. }
  assert (Hdh : Forall dated (first :: rest))
    by (rewrite <- E; apply sortByDate_Forall, Hd).
  assert (Hs : StronglySorted keyLe (first :: rest))
    by (rewrite <- E; apply sortByDate_sorted, Hd).
  assert (Hlin : In (last rest first) (filter isCompleted ps)).
  { apply sortByDate_In. fold (completedHistory ps). rewrite E.
    rewrite <- (last_cons rest first first).
    destruct (exists_last (l := first :: rest) ltac:(discriminate))
      as (l0 & a & El). rewrite El, last_last.
    apply in_or_app. right. now left. }
  assert (Hlk : timeKey (last rest first) = midnight off t).
  { rewrite Forall_forall in Hmax. pose proof (Hmax _ Hlin) as Hup.
    assert (Hin' : In latest (first :: rest))
      by (rewrite <- E; apply sortByDate_In, Hin).
    pose proof (sorted_last _ Hs latest first Hin') as Hlow.
    rewrite last_cons in Hlow. lia. }
  assert (Htime : timeOf (last rest first) = Some (midnight off t)).
  { rewrite Forall_forall in Hd. rewrite (Hd _ Hlin). now rewrite Hlk. }
  rewrite (recalculate_nonempty _ _ _ _ _ E). cbn [currentStreak].
  rewrite Htime, floorDays_since_midnight. cbn [numGt].
  pose proof (streakWalk_range rest first 1 1 ltac:(lia)) as Hw.
  destruct (Z.ltb_spec 1 (localDay off now - localDay off t)); lia.
Qed.

End CalendarDays.

(** ** Two readings of the clock, and marks day after day *)

Section TwoReadings.

Context {rt : JSDate} {engine : JSArray} {off : Z} (Hreg : RegularZone rt off).

(** The recomputation over the list that [markComplete] leaves, by the
    local days of the last completion and of the mark. *)
Lemma recompute_after_mark
  (problemId : string) (now now' now0 : Z) (s0 : Stats) (st : State) :
  inWindow off now -> now0 <= now ->
  occurrences problemId (problems st) = 1%nat ->
  notYetCompleted problemId (problems st) ->
  recordedBy off now0 (problems st) ->
  stats st = recalculateStatsFromHistory s0 (problems st) now0 ->
  let r := recalculateStatsFromHistory (stats st)
             (problems (markComplete problemId now now' st)) now in
  totalCompleted r = totalCompleted (stats st) + 1 /\
  lastCompletedDate r = Some (toDateString now) /\
  longestStreak r = Z.max (longestStreak (stats st)) (currentStreak r) /\
  match lastCompletedDate (stats st) with
  | None => currentStreak r = 1
  | Some d =>
      exists t, inWindow off t /\ t <= now0 /\ d = toDateString t /\
        let g := localDay off now - localDay off t in
        0 <= g /\
        (g <= 1 -> 1 <= currentStreak (stats st)) /\
        currentStreak r =
          if g =? 1 then currentStreak (stats st) + 1
          else if g =? 0 then currentStreak (stats st)
          else 1
  end.
Proof.
  intros Hn Hle Hone Hopen Hrec Hcons. cbv zeta.
  destruct (occurrences_one_split _ _ Hone)
    as (l1 & p & l2 & Eps & Hp & H1 & H2).
  set (today := toDateString now).
  set (x := setCompleted p today).
  assert (Eps' : problems (markComplete problemId now now' st) =
                 l1 ++ x :: l2).
  { unfold markComplete. cbn [problems]. rewrite Eps, map_app. cbn [map].
    rewrite (proj2 (String.eqb_eq _ _) Hp).
    now rewrite !map_unknown_id by assumption. }
  assert (Hpo : isCompleted p = false).
  { unfold notYetCompleted in Hopen. rewrite Eps in Hopen.
    apply Forall_app in Hopen. destruct Hopen as [_ Hopen].
    inversion Hopen as [|? ? Hc _]; subst.
    unfold isCompleted. now rewrite (Hc eq_refl). }
  assert (Hxc : isCompleted x = true).
  { unfold isCompleted, x. cbn [completed completedDate setCompleted andb].
    apply (truthy_toDateString Hreg), Hn. }
  assert (Ef : filter isCompleted (problems st) =
               filter isCompleted l1 ++ filter isCompleted l2).
  { rewrite Eps, filter_app. cbn [filter]. now rewrite Hpo. }
  assert (Ef' : filter isCompleted
                  (problems (markComplete problemId now now' st)) =
                filter isCompleted l1 ++ x :: filter isCompleted l2).
  { rewrite Eps', filter_app. cbn [filter]. now rewrite Hxc. }
  assert (Hrec' : Forall (fun q => exists t, inWindow off t /\ t <= now0 /\
                            completedDate q = Some (toDateString t))
                    (filter isCompleted l1 ++ filter isCompleted l2)).
  { rewrite <- Ef. rewrite Forall_forall. intros q Hq.
    apply filter_In in Hq. destruct Hq as [Hq Hc].
    unfold recordedBy in Hrec. rewrite Forall_forall in Hrec.
    exact (Hrec q Hq Hc). }
  rewrite (recalculate_after_mark Hreg (stats st) _ now now0 _ _ x
             Hn Hle Ef' eq_refl Hrec').
  fold today.
  assert (Eh : completedHistory (problems st) =
               sortByDate (filter isCompleted l1 ++ filter isCompleted l2))
    by (unfold completedHistory; now rewrite Ef).
  set (old := sortByDate (filter isCompleted l1 ++ filter isCompleted l2)) in *.
  cbn [totalCompleted lastCompletedDate longestStreak currentStreak].
  destruct old as [|first rest] eqn:Eold.
  - rewrite (recalculate_empty _ _ _ Eh) in Hcons. rewrite Hcons.
    cbn [lastCompletedDate currentStreak longestStreak totalCompleted
         fst snd List.length]. repeat split.
  - rewrite (recalculate_nonempty _ _ _ _ _ Eh) in Hcons.
    assert (Hin : In (last rest first)
                    (filter isCompleted l1 ++ filter isCompleted l2)).
    { apply sortByDate_In. fold old. rewrite Eold.
      rewrite <- (last_cons rest first first).
      destruct (exists_last (l := first :: rest) ltac:(discriminate))
        as (l0 & a & El). rewrite El, last_last.
      apply in_or_app. right. now left. }
    rewrite Forall_forall in Hrec'.
    destruct (Hrec' _ Hin) as (t & Hw & Ht & Hdate).
    assert (Htime : timeOf (last rest first) = Some (midnight off t)).
    { unfold timeOf. rewrite Hdate.
      apply (getTime_toDateString rt off Hreg), Hw. }
    assert (Hxt : timeOf x = Some (midnight off now)).
    { unfold timeOf, x. cbn [completedDate setCompleted].
      apply (getTime_toDateString rt off Hreg), Hn. }
    rewrite Htime, Hdate, floorDays_since_midnight in Hcons.
    cbv zeta. cbn [fst snd].
    rewrite (streakStep_midnights _ _ t now _ Htime Hxt).
    pose proof (streakWalk_range rest first 1 1 ltac:(lia)) as Hwalk.
    rewrite Hcons.
    cbn [lastCompletedDate currentStreak longestStreak totalCompleted numGt].
    pose proof (localDay_le off t now0 Ht) as Hd0.
    pose proof (localDay_le off now0 now Hle) as Hd1.
    set (g := localDay off now - localDay off t) in *.
    set (g0 := localDay off now0 - localDay off t) in *.
    assert (Hg : 0 <= g0 <= g) by (subst g g0; lia).
    set (w := fst (streakWalk first rest 1 1)) in *.
    split; [cbn [List.length]; lia|]. split; [reflexivity|].
    split.
    + destruct (Z.eqb_spec g 1); destruct (Z.ltb_spec 1 g); lia.
    + exists t. split; [exact Hw|]. split; [exact Ht|].
      split; [reflexivity|]. cbv zeta. fold g. split; [lia|].
      destruct (Z.ltb_spec 1 g0).
      * split; [lia|].
        destruct (Z.eqb_spec g 1); [lia|].
        destruct (Z.eqb_spec g 0); [lia|].
        destruct (Z.ltb_spec 1 g); [reflexivity|lia].
      * split; [lia|].
        destruct (Z.eqb_spec g 1); [reflexivity|].
        destruct (Z.eqb_spec g 0); destruct (Z.ltb_spec 1 g);
          reflexivity || lia.
Qed.

(** The incremental update against the recomputation, with the two
    readings of the clock on one local day. *)
Lemma markComplete_as_recompute
  (problemId : string) (now now' now0 : Z) (s0 : Stats) (st : State) :
  inWindow off now -> inWindow off now' -> inWindow off (now' - msPerDay) ->
  localDay off now' = localDay off now ->
  now0 <= now ->
  occurrences problemId (problems st) = 1%nat ->
  notYetCompleted problemId (problems st) ->
  recordedBy off now0 (problems st) ->
  stats st = recalculateStatsFromHistory s0 (problems st) now0 ->
  stats (markComplete problemId now now' st) =
  recalculateStatsFromHistory (stats st)
    (problems (markComplete problemId now now' st)) now.
Proof.
  intros Hn Hn' Hy Hsame Hle Hone Hopen Hrec Hcons.
  destruct (recompute_after_mark problemId now now' now0 s0 st
              Hn Hle Hone Hopen Hrec Hcons) as (Ht & Hl & Hm & Hc).
  destruct (recalculateStatsFromHistory (stats st)
              (problems (markComplete problemId now now' st)) now)
    as [c l tot d].
  cbn [currentStreak longestStreak totalCompleted lastCompletedDate] in *.
  unfold markComplete. cbn [stats].
  assert (E : newCurrentStreak (stats st) (toDateString now) now' = c).
  { destruct (lastCompletedDate (stats st)) as [last|] eqn:El.
    - destruct Hc as (t & Hw & _ & -> & _ & _ & Hc).
      rewrite (newCurrentStreak_by_days Hreg (stats st) now now' t)
        by assumption.
      rewrite Hsame, Hc.
      destruct (Z.eqb_spec (localDay off t) (localDay off now - 1));
        destruct (Z.eqb_spec (localDay off now - localDay off t) 1);
        try lia; try reflexivity.
      destruct (Z.eqb_spec (localDay off t) (localDay off now));
        destruct (Z.eqb_spec (localDay off now - localDay off t) 0);
        try lia; reflexivity.
    - unfold newCurrentStreak. rewrite El. now rewrite Hc. }
  rewrite E. subst. reflexivity.
Qed.

(** C3, as the code has it: on a host in a zone with a fixed offset
    from UTC (no daylight saving), for local dates from Fri Jan 02 1970
    to the end of year 9999: when the Stats of the store are those of
    a full recomputation made at a moment [now0] not after the mark,
    every completion date was written by markComplete by then, the id
    names exactly one Problem, not yet completed, and the two readings
    of the clock that markComplete takes ([now] for today, [now'] for
    yesterday) fall on one local day, the Stats that markComplete
    produces incrementally are those a full recomputation over the
    updated problem list produces at [now]. *)
Theorem incremental_matches_recompute
  (problemId : string) (now now' now0 : Z) (s0 : Stats) (st : State) :
  inWindow off now -> inWindow off now' -> inWindow off (now' - msPerDay) ->
  localDay off now' = localDay off now ->
  now0 <= now ->
  occurrences problemId (problems st) = 1%nat ->
  notYetCompleted problemId (problems st) ->
  recordedBy off now0 (problems st) ->
  stats st = recalculateStatsFromHistory s0 (problems st) now0 ->
  let st' := markComplete problemId now now' st in
  stats st' = recalculateStatsFromHistory (stats st) (problems st') now.
Proof.
  intros Hn Hn' Hy Hsame Hle Hone Hopen Hrec Hcons. cbv zeta.
  now apply (markComplete_as_recompute problemId now now' now0 s0 st).
Qed.

(** X9: under the conditions of C3 but with a local midnight between
    the two readings of the clock ([now'] on the local day after that
    of [now]), the incremental Stats of markComplete are not those of
    a recomputation over the updated list whenever the last completion
    was recorded on the day of [now] or on the day before: recorded
    the day before, markComplete restarts the streak at 1 where the
    recomputation has it grown by 1; recorded the same day,
    markComplete has it grown by 1 where the recomputation leaves it
    as it was. *)
Theorem incremental_differs_across_midnight
  (problemId : string) (now now' now0 : Z) (s0 : Stats) (st : State) (t : Z) :
  inWindow off now -> inWindow off now' -> inWindow off (now' - msPerDay) ->
  localDay off now' = localDay off now + 1 ->
  now0 <= now ->
  occurrences problemId (problems st) = 1%nat ->
  notYetCompleted problemId (problems st) ->
  recordedBy off now0 (problems st) ->
  stats st = recalculateStatsFromHistory s0 (problems st) now0 ->
  inWindow off t ->
  lastCompletedDate (stats st) = Some (toDateString t) ->
  let st' := markComplete problemId now now' st in
  let r := recalculateStatsFromHistory (stats st) (problems st') now in
  let streak := currentStreak (stats st) in
  (localDay off t = localDay off now - 1 ->
   currentStreak (stats st') = 1 /\ currentStreak r = streak + 1 /\
   1 <= streak) /\
  (localDay off t = localDay off now ->
   currentStreak (stats st') = streak + 1 /\ currentStreak r = streak) /\
  (localDay off now - 1 <= localDay off t -> stats st' <> r).
Proof.
  intros Hn Hn' Hy Hnext Hle Hone Hopen Hrec Hcons Ht Hl. cbv zeta.
  destruct (recompute_after_mark problemId now now' now0 s0 st
              Hn Hle Hone Hopen Hrec Hcons) as (_ & _ & _ & Hc).
  rewrite Hl in Hc. destruct Hc as (t' & Hw' & _ & Ed & Hg & Hone' & Hc).
  assert (Eday : localDay off t' = localDay off t).
  { apply midnight_inj.
    pose proof (getTime_toDateString rt off Hreg t Ht) as A.
    pose proof (getTime_toDateString rt off Hreg t' Hw') as B.
    rewrite Ed in A. congruence. }
  cbv zeta in Hg, Hone', Hc. rewrite Eday in Hg, Hone', Hc.
  assert (Hinc : currentStreak (stats (markComplete problemId now now' st)) =
                 if localDay off t =? localDay off now
                 then currentStreak (stats st) + 1 else 1).
  { cbn [markComplete stats currentStreak].
    rewrite (newCurrentStreak_by_days Hreg (stats st) now now' t) by assumption.
    rewrite Hnext.
    destruct (Z.eqb_spec (localDay off t) (localDay off now + 1 - 1));
      destruct (Z.eqb_spec (localDay off t) (localDay off now));
      try lia; reflexivity. }
  assert (A : localDay off t = localDay off now - 1 ->
              currentStreak (stats (markComplete problemId now now' st)) = 1 /\
              currentStreak
                (recalculateStatsFromHistory (stats st)
                   (problems (markComplete problemId now now' st)) now) =
              currentStreak (stats st) + 1 /\
              1 <= currentStreak (stats st)).
  { intros E. rewrite Hinc, Hc.
    destruct (Z.eqb_spec (localDay off t) (localDay off now)); [lia|].
    destruct (Z.eqb_spec (localDay off now - localDay off t) 1); [|lia].
    repeat split. apply Hone'. lia. }
  assert (B : localDay off t = localDay off now ->
              currentStreak (stats (markComplete problemId now now' st)) =
              currentStreak (stats st) + 1 /\
              currentStreak
                (recalculateStatsFromHistory (stats st)
                   (problems (markComplete problemId now now' st)) now) =
              currentStreak (stats st)).
  { intros E. rewrite Hinc, Hc.
    destruct (Z.eqb_spec (localDay off t) (localDay off now)); [|lia].
    destruct (Z.eqb_spec (localDay off now - localDay off t) 1); [lia|].
    destruct (Z.eqb_spec (localDay off now - localDay off t) 0); [|lia].
    split; reflexivity. }
  split; [exact A|]. split; [exact B|].
  intros Hnear Heq.
  assert (C : localDay off t = localDay off now - 1 \/
              localDay off t = localDay off now) by lia.
  destruct C as [C|C].
  - destruct (A C) as (A1 & A2 & A3). rewrite Heq in A1. lia.
  - destruct (B C) as (B1 & B2). rewrite Heq in B1. lia.
Qed.

(** Marks on consecutive local days. *)
Lemma markedDaily_run (ops : list Op) :
  forall (st : State) (t : Z),
    inWindow off t ->
    lastCompletedDate (stats st) = Some (toDateString t) ->
    currentStreak (stats st) <= longestStreak (stats st) ->
    markedDaily off (localDay off t) ops ->
    let n := Z.of_nat (List.length ops) in
    let st' := run st ops in
    currentStreak (stats st') = currentStreak (stats st) + n /\
    longestStreak (stats st') =
      Z.max (longestStreak (stats st)) (currentStreak (stats st) + n) /\
    totalCompleted (stats st') = totalCompleted (stats st) + n.
Proof.
  induction ops as [|o ops IH]; intros st t Ht Hl Hord Hd; cbv zeta.
  - cbn. lia.
  - destruct o as [problemId now now'| |]; cbn [markedDaily] in Hd;
      try contradiction.
    destruct Hd as (Hn & Hn' & Hy & Hday & Hday' & Hrest).
    unfold run. cbn [fold_left step List.length].
    fold (run (markComplete problemId now now' st) ops).
    assert (Hc : currentStreak (stats (markComplete problemId now now' st)) =
                 currentStreak (stats st) + 1).
    { cbn [markComplete stats currentStreak].
      rewrite (newCurrentStreak_by_days Hreg (stats st) now now' t)
        by assumption.
      destruct (Z.eqb_spec (localDay off t) (localDay off now' - 1));
        [reflexivity|lia]. }
    rewrite <- Hday in Hrest.
    assert (Hord' : currentStreak (stats (markComplete problemId now now' st))
                    <= longestStreak (stats (markComplete problemId now now' st)))
      by (cbn [markComplete stats currentStreak longestStreak]; lia).
    destruct (IH (markComplete problemId now now' st) now Hn eq_refl
                Hord' Hrest) as (I1 & I2 & I3).
    rewrite I1, I2, I3, Hc, Nat2Z.inj_succ.
    cbn [markComplete stats longestStreak totalCompleted].
    cbn [markComplete stats currentStreak] in Hc. rewrite Hc.
    repeat split; lia.
Qed.

(** X10: on a host in a zone with a fixed offset from UTC (no daylight
    saving), for local dates from Fri Jan 02 1970 to the end of year
    9999: after a mark at [now], n further marks, one on each of the n
    following local days and each with both its readings of the clock
    on its day, add n to currentStreak and to totalCompleted and leave
    longestStreak at the larger of its value before the first mark and
    the new currentStreak; when there was no completion before the
    first mark the streak ends at 1 + n. *)
Theorem streak_grows_a_day_at_a_time
  (problemId : string) (now now' : Z) (st : State) (ops : list Op) :
  inWindow off now ->
  markedDaily off (localDay off now) ops ->
  let first := markComplete problemId now now' st in
  let st' := run first ops in
  let n := Z.of_nat (List.length ops) in
  currentStreak (stats st') = currentStreak (stats first) + n /\
  longestStreak (stats st') =
    Z.max (longestStreak (stats st)) (currentStreak (stats first) + n) /\
  totalCompleted (stats st') = totalCompleted (stats st) + 1 + n /\
  (lastCompletedDate (stats st) = None ->
   currentStreak (stats st') = 1 + n).
Proof.
  intros Hn Hd. cbv zeta.
  destruct (markedDaily_run ops (markComplete problemId now now' st) now
              Hn eq_refl ltac:(cbn; lia) Hd) as (I1 & I2 & I3).
  rewrite I1, I2, I3.
  cbn [markComplete stats currentStreak longestStreak totalCompleted].
  repeat split; try lia.
  intros Hl. unfold newCurrentStreak. rewrite Hl. reflexivity.
Qed.

End TwoReadings.

(** ** The order of the store *)

Section StoreOrder.

Context {rt : JSDate} {engine : JSArray}.

Lemma filter_perm (f : Problem -> bool) (l l' : list Problem) :
  Permutation l l' -> Permutation (filter f l) (filter f l').
Proof.
  induction 1 as [|x l l' _ IH|x y l|l l' l'' _ IH1 _ IH2]; cbn.
  - reflexivity.
  - destruct (f x); [now constructor|exact IH].
  - destruct (f x), (f y); try reflexivity. apply perm_swap.
  - now rewrite IH1.
Qed.

(** Two sorted lists of the same numbers are one list. *)
Lemma sorted_unique (l : list Z) :
  forall l', StronglySorted Z.le l -> StronglySorted Z.le l' ->
             Permutation l l' -> l = l'.
Proof.
  induction l as [|a l IH]; intros l' Hs Hs' Hp.
  - apply Permutation_nil in Hp. now subst.
  - destruct l' as [|b l'].
    + apply Permutation_sym, Permutation_nil in Hp. discriminate Hp.
    + inversion Hs as [|? ? Hs1 Ha]; subst.
      inversion Hs' as [|? ? Hs1' Hb]; subst.
      assert (E : a = b).
      { assert (Hin : In b (a :: l))
          by (apply (Permutation_in _ (Permutation_sym Hp)); now left).
        assert (Hin' : In a (b :: l'))
          by (apply (Permutation_in _ Hp); now left).
        rewrite Forall_forall in Ha, Hb.
        destruct Hin as [->|Hin]; [reflexivity|].
        destruct Hin' as [->|Hin']; [reflexivity|].
        pose proof (Ha _ Hin). pose proof (Hb _ Hin'). lia. }
      subst b. f_equal. apply IH; auto.
      exact (Permutation_cons_inv Hp).
Qed.

Lemma sorted_keys (l : list Problem) :
  StronglySorted keyLe l -> StronglySorted Z.le (map timeKey l).
Proof.
  induction 1 as [|a l _ IH Ha]; cbn; constructor; [exact IH|].
  apply Forall_map. exact Ha.
Qed.

Lemma dated_times (l : list Problem) :
  Forall dated l -> map timeOf l = map Some (map timeKey l).
Proof.
  induction 1 as [|p l Hp _ IH]; cbn; [reflexivity|].
  now rewrite Hp at 1; rewrite IH.
Qed.

(** The dates the engine walks do not depend on the order of the store. *)
Lemma sortByDate_times (l l' : list Problem) :
  Forall dated l -> Permutation l l' ->
  map timeOf (sortByDate l) = map timeOf (sortByDate l').
Proof.
  intros Hd Hp.
  assert (Hd' : Forall dated l').
  { rewrite Forall_forall in *. intros p Hin. apply Hd.
    exact (Permutation_in _ (Permutation_sym Hp) Hin). }
  rewrite !dated_times by (apply sortByDate_Forall; assumption).
  f_equal. apply sorted_unique.
  - apply sorted_keys, sortByDate_sorted, Hd.
  - apply sorted_keys, sortByDate_sorted, Hd'.
  - apply Permutation_map. rewrite !sortByDate_perm. exact Hp.
Qed.

(** X11: when the dates of the completed Problems all parse, the
    recomputed currentStreak, longestStreak and totalCompleted, and the
    moment of the last completion, do not depend on the order of the
    Problems in the store. *)
Theorem recompute_ignores_store_order
  (s : Stats) (ps ps' : list Problem) (now : Z) :
  Permutation ps ps' ->
  Forall dated (filter isCompleted ps) ->
  let r := recalculateStatsFromHistory s ps now in
  let r' := recalculateStatsFromHistory s ps' now in
  currentStreak r = currentStreak r' /\
  longestStreak r = longestStreak r' /\
  totalCompleted r = totalCompleted r' /\
  (forall d,
     timeOf (last (completedHistory ps) d) =
     timeOf (last (completedHistory ps') d)).
Proof.
  intros Hp Hd. cbv zeta.
  pose proof (sortByDate_times _ _ Hd (filter_perm isCompleted _ _ Hp)) as Hk.
  fold (completedHistory ps) in Hk. fold (completedHistory ps') in Hk.
  assert (Hlast : forall d, timeOf (last (completedHistory ps) d) =
                            timeOf (last (completedHistory ps') d)).
  { intros d. now rewrite <- !last_map_timeOf, Hk. }
  destruct (completedHistory ps) as [|first rest] eqn:E;
    destruct (completedHistory ps') as [|first' rest'] eqn:E';
    try discriminate Hk.
  - rewrite !recalculate_empty by assumption. cbn. auto.
  - rewrite (recalculate_nonempty _ _ _ _ _ E).
    rewrite (recalculate_nonempty _ _ _ _ _ E').
    cbn [currentStreak longestStreak totalCompleted].
    rewrite (streakWalk_ext rest rest' first first' 1 1 Hk).
    pose proof (Hlast first) as Hl. rewrite !last_cons in Hl. rewrite Hl.
    assert (Hlen : List.length (first :: rest) = List.length (first' :: rest'))
      by (rewrite <- (length_map timeOf (first :: rest)), Hk; apply length_map).
    rewrite Hlen. repeat split; try reflexivity. exact Hlast.
Qed.

End StoreOrder.

(** ** The walk in the words of the specification *)

Section Walk.

Context {rt : JSDate} {engine : JSArray}.

Lemma nearestDays_round (d g : Z) :
  nearestDays d g -> (2 * d + msPerDay) / (2 * msPerDay) = g.
Proof.
  unfold nearestDays. rewrite msPerDay_value. intros H.
  symmetry.
  apply (Z.div_unique _ _ _ (2 * d + 86400000 - g * (2 * 86400000))); lia.
Qed.

Lemma nearestDays_exists (d : Z) :
  nearestDays d ((2 * d + msPerDay) / (2 * msPerDay)).
Proof.
  unfold nearestDays. rewrite msPerDay_value.
  Z.div_mod_to_equations. lia.
Qed.

Lemma wholeDays_floor (d g : Z) : wholeDays d g -> d / msPerDay = g.
Proof.
  unfold wholeDays. rewrite msPerDay_value. intros H.
  symmetry. apply (Z.div_unique _ _ _ (d - g * 86400000)); lia.
Qed.

(** One loop turn, by the nearest whole number of days between the two
    dates. *)
Lemma streakStep_nearest (prev cur : Problem) (streak g : Z) :
  dated prev -> dated cur ->
  nearestDays (timeKey cur - timeKey prev) g ->
  streakStep prev cur streak =
  if g =? 1 then streak + 1 else if 1 <? g then 1 else streak.
Proof.
  unfold dated, streakStep. intros -> -> Hg.
  cbn [numSub roundDays option_map numEq numGt].
  now rewrite (nearestDays_round _ _ Hg).
Qed.

Lemma sorted_nth (l : list Z) :
  StronglySorted Z.le l ->
  forall i, (S i < List.length l)%nat -> nth i l 0 <= nth (S i) l 0.
Proof.
  induction 1 as [|a l Hs IH Ha]; intros i Hi; [simpl in Hi; lia|].
  destruct i as [|i].
  - destruct l as [|b l]; [simpl in Hi; lia|].
    inversion Ha; subst. assumption.
  - cbn [nth]. apply IH. simpl in Hi. lia.
Qed.

(** The running streaks are determined by the times. *)
Lemma runningOver_unique (times runs runs' : list Z) :
  StronglySorted Z.le times ->
  runningOver times runs -> runningOver times runs' -> runs' = runs.
Proof.
  intros Hs (Hl & H0 & Hstep) (Hl' & H0' & Hstep').
  apply (nth_ext _ _ 0 0); [congruence|].
  intros i Hi. rewrite Hl' in Hi.
  induction i as [|i IH]; [congruence|].
  specialize (IH ltac:(lia)).
  pose proof (sorted_nth times Hs i Hi) as Hle.
  pose proof (nearestDays_exists (nth (S i) times 0 - nth i times 0)) as Hg.
  set (g := (2 * (nth (S i) times 0 - nth i times 0) + msPerDay)
            / (2 * msPerDay)) in *.
  assert (G : 0 <= g).
  { unfold nearestDays in Hg. rewrite msPerDay_value in Hg. lia. }
  destruct (Hstep i g Hi Hg) as (A1 & A2 & A3).
  destruct (Hstep' i g Hi Hg) as (B1 & B2 & B3).
  assert (C : g = 0 \/ g = 1 \/ 1 < g) by lia.
  destruct C as [C|[C|C]].
  - rewrite (A3 C), (B3 C). exact IH.
  - rewrite (A1 C), (B1 C). now rewrite IH.
  - now rewrite (A2 C), (B2 C).
Qed.

Lemma nth_timeKey (l : list Problem) (d : Problem) (i : nat) :
  (i < List.length l)%nat ->
  nth i (map timeKey l) 0 = timeKey (nth i l d).
Proof.
  intros Hi. rewrite (nth_indep _ 0 (timeKey d)) by now rewrite length_map.
  apply map_nth.
Qed.

(** The running streaks of the loop are those of the specification. *)
Lemma runningStreaks_runningOver (first : Problem) (rest : list Problem) :
  Forall dated (first :: rest) ->
  runningOver (map timeKey (first :: rest)) (runningStreaks first rest 1).
Proof.
  intros Hd. unfold runningOver. rewrite length_map.
  split; [apply runningStreaks_length|].
  split; [destruct rest; reflexivity|].
  intros i g Hi Hg.
  rewrite (runningStreaks_step rest first 1 i 0) by (simpl in Hi; lia).
  rewrite (nth_timeKey _ first) in Hg by lia.
  rewrite (nth_timeKey _ first) in Hg by lia.
  rewrite Forall_forall in Hd.
  rewrite (streakStep_nearest _ _ _ g) by
    (try exact Hg; apply Hd, nth_In; lia).
  repeat split.
  - intros ->. reflexivity.
  - intros H. destruct (Z.eqb_spec g 1); [lia|].
    destruct (Z.ltb_spec 1 g); [reflexivity|lia].
  - intros ->. reflexivity.
Qed.

(** The times of the sorted array are the times of the completed
    Problems in ascending order. *)
Lemma completedHistory_times (ps : list Problem) (times : list Z) :
  Forall dated (filter isCompleted ps) ->
  Permutation times (map timeKey (filter isCompleted ps)) ->
  StronglySorted Z.le times ->
  map timeKey (completedHistory ps) = times.
Proof.
  intros Hd Hp Hs. unfold completedHistory. apply sorted_unique.
  - apply sorted_keys, sortByDate_sorted, Hd.
  - exact Hs.
  - rewrite Hp. apply Permutation_map, sortByDate_perm.
Qed.

(** C6: for the completed Problems of a store, all with a date that
    parses, and their completion times in ascending order, a list that
    is not empty: the walk of the recomputation holds a running streak
    of 1 at the first time; for each adjacent pair of times with
    rounded day-gap g (the whole number nearest to their difference in
    days) the running streak grows by 1 when g is 1, restarts at 1
    when g exceeds 1 and stays as it is when g is 0; these running
    streaks are the only ones there are, and the longestStreak of the
    result is the larger of the prior longestStreak and the largest
    running streak of the walk. *)
Theorem recompute_walk_by_day_gaps
  (s : Stats) (ps : list Problem) (now : Z) (times : list Z) :
  Forall dated (filter isCompleted ps) ->
  Permutation times (map timeKey (filter isCompleted ps)) ->
  StronglySorted Z.le times ->
  times <> [] ->
  exists runs candidate,
    runningOver times runs /\
    (forall runs', runningOver times runs' -> runs' = runs) /\
    In candidate runs /\
    Forall (fun r => r <= candidate) runs /\
    longestStreak (recalculateStatsFromHistory s ps now) =
      Z.max (longestStreak s) candidate.
Proof.
  intros Hd Hp Hs Hne.
  pose proof (completedHistory_times ps times Hd Hp Hs) as Ht.
  destruct (completedHistory ps) as [|first rest] eqn:E;
    [subst times; now contradiction Hne|].
  assert (Hdh : Forall dated (first :: rest))
    by (rewrite <- E; apply sortByDate_Forall, Hd).
  pose proof (runningStreaks_runningOver first rest Hdh) as Hr.
  rewrite Ht in Hr.
  exists (runningStreaks first rest 1), (snd (streakWalk first rest 1 1)).
  split; [exact Hr|].
  split; [intros runs' Hr'; exact (runningOver_unique _ _ _ Hs Hr Hr')|].
  rewrite (recalculate_nonempty _ _ _ _ _ E). cbn [longestStreak].
  rewrite streakWalk_runningStreaks. cbn [snd].
  split; [|split; [|reflexivity]].
  - rewrite (runningStreaks_hd rest first 1) at 2. apply listMax_in.
  - set (m := listMax 1 (tl (runningStreaks first rest 1))).
    rewrite (runningStreaks_hd rest first 1).
    constructor; apply listMax_le.
Qed.

(** C7: for the completed Problems of a store, all with a date that
    parses, their completion times in ascending order and the running
    streaks of the walk over them: the last element in sorted order is
    the completed Problem with the latest date, the last such in the
    store; with g the floored day-gap between now and its date, the
    recomputation sets currentStreak to 0 when g exceeds 1 and to the
    running streak at the last time otherwise; lastCompletedDate is
    the completion date of that Problem either way. *)
Theorem recompute_current_and_last
  (s : Stats) (ps : list Problem) (now : Z)
  (before after : list Problem) (lastCompleted : Problem)
  (times runs : list Z) (g : Z) :
  Forall dated (filter isCompleted ps) ->
  filter isCompleted ps = before ++ lastCompleted :: after ->
  Forall (fun q => timeKey q <= timeKey lastCompleted) before ->
  Forall (fun q => timeKey q < timeKey lastCompleted) after ->
  Permutation times (map timeKey (filter isCompleted ps)) ->
  StronglySorted Z.le times ->
  runningOver times runs ->
  wholeDays (now - timeKey lastCompleted) g ->
  let r := recalculateStatsFromHistory s ps now in
  (1 < g -> currentStreak r = 0) /\
  (g <= 1 -> currentStreak r = last runs 0) /\
  lastCompletedDate r = completedDate lastCompleted.
Proof.
  intros Hd Ef Hb Ha Hp Hs Hr Hg. cbv zeta.
  pose proof (completedHistory_times ps times Hd Hp Hs) as Ht.
  assert (Hdx : Forall dated before /\ dated lastCompleted /\
                Forall dated after).
  { rewrite Ef in Hd. apply Forall_app in Hd. destruct Hd as [H1 H2].
    inversion H2; subst. auto. }
  destruct Hdx as (Hd1 & Hdx & Hd2).
  assert (Eh : completedHistory ps =
               sortByDate (before ++ after) ++ [lastCompleted]).
  { unfold completedHistory. rewrite Ef. apply sortByDate_last; assumption. }
  destruct (completedHistory ps) as [|first rest] eqn:E.
  { destruct (sortByDate (before ++ after)); discriminate Eh. }
  assert (Hlast : last rest first = lastCompleted).
  { rewrite <- (last_cons rest first first), Eh. apply last_last. }
  assert (Hdh : Forall dated (first :: rest))
    by (rewrite <- E; apply sortByDate_Forall, Hd).
  pose proof (runningStreaks_runningOver first rest Hdh) as Hr'.
  rewrite Ht in Hr'.
  rewrite (runningOver_unique _ _ _ Hs Hr' Hr).
  rewrite (recalculate_nonempty _ _ _ _ _ E).
  cbn [currentStreak lastCompletedDate]. rewrite Hlast, Hdx.
  cbn [numSub floorDays option_map numGt].
  rewrite (wholeDays_floor _ _ Hg).
  rewrite streakWalk_runningStreaks. cbn [fst].
  repeat split.
  - intros H. destruct (Z.ltb_spec 1 g); [reflexivity|lia].
  - intros H. destruct (Z.ltb_spec 1 g); [lia|]. apply runningStreaks_last.
Qed.

End Walk.

(** ** The cards and the buttons *)

Section RenderFacts.

Context {rt : JSDate} {engine : JSArray}.

Lemma nextIncompleteProblem_spec (st : State) (p : Problem) :
  nextIncompleteProblem st = Some p ->
  completed p = false /\
  exists before after,
    problems st = before ++ p :: after /\
    Forall (fun q => completed q = true) before.
Proof.
  unfold nextIncompleteProblem. induction (problems st) as [|q ps IH].
  - discriminate.
  - cbn [find]. destruct (completed q) eqn:Eq; cbn [negb].
    + intros H. destruct (IH H) as (Hp & before & after & -> & Hb).
      split; [exact Hp|]. exists (q :: before), after.
      split; [reflexivity|]. constructor; assumption.
    + intros [= <-]. split; [exact Eq|]. exists [], ps.
      split; [reflexivity|constructor].
Qed.

Lemma nextIncompleteProblem_none (st : State) :
  nextIncompleteProblem st = None ->
  Forall (fun q => completed q = true) (problems st).
Proof.
  unfold nextIncompleteProblem. intros H. rewrite Forall_forall. intros q Hq.
  pose proof (find_none _ _ H q Hq) as Hn. cbn in Hn.
  now destruct (completed q).
Qed.

Lemma mainContent_today (st : State) (now : Z) (p : Problem) :
  mainContent st now = TodayProblemCard p ->
  nextIncompleteProblem st = Some p.
Proof.
  unfold mainContent.
  destruct (Nat.eqb _ 0); [discriminate|].
  destruct (isPotdDoneForToday st now); [discriminate|].
  destruct (nextIncompleteProblem st); [now intros [= ->]|].
  destruct (allProblemsCompleted st); discriminate.
Qed.

(** X12: the main content area always shows one of its four cards, never
    nothing; the get-started card exactly when the store is empty; the
    today card only for a Problem that is open, with every Problem
    before it in the store completed, and never on a day counted as
    done; the all-done card only when every Problem is completed. *)
Theorem mainContent_cases (st : State) (now : Z) :
  mainContent st now <> NoCard /\
  (mainContent st now = GetStartedCard <-> problems st = []) /\
  (forall p, mainContent st now = TodayProblemCard p ->
     isPotdDoneForToday st now = false /\
     completed p = false /\
     exists before after,
       problems st = before ++ p :: after /\
       Forall (fun q => completed q = true) before) /\
  (mainContent st now = AllProblemsDoneCard ->
     problems st <> [] /\
     Forall (fun q => completed q = true) (problems st)).
Proof.
  pose proof (nextIncompleteProblem_spec st) as Hsome.
  pose proof (nextIncompleteProblem_none st) as Hnone.
  unfold mainContent, allProblemsCompleted.
  destruct (problems st) as [|q ps];
    cbn [List.length Nat.eqb negb andb].
  - split; [discriminate|]. split; [tauto|].
    split; [discriminate|discriminate].
  - destruct (isPotdDoneForToday st now).
    + split; [discriminate|]. split; [split; discriminate|].
      split; [discriminate|discriminate].
    + destruct (nextIncompleteProblem st) as [p|].
      * split; [discriminate|]. split; [split; discriminate|].
        split; [|discriminate].
        intros p' [= <-]. split; [reflexivity|]. apply Hsome. reflexivity.
      * split; [discriminate|]. split; [split; discriminate|].
        split; [discriminate|].
        intros _. split; [discriminate|]. apply Hnone. reflexivity.
Qed.

(** X13: after markComplete on a store that is not empty, every render on
    the same date shows the done-for-today card, so that the only
    buttons left are those of the history list. *)
Theorem markComplete_closes_the_day
  (problemId : string) (now now' later : Z) (st : State) :
  problems st <> [] ->
  toDateString later = toDateString now ->
  let st' := markComplete problemId now now' st in
  mainContent st' later = PotdDoneForTodayCard /\
  buttons st' later = historyButtons st'.
Proof.
  intros Hne Hd. cbv zeta.
  assert (H : mainContent (markComplete problemId now now' st) later =
              PotdDoneForTodayCard).
  { unfold mainContent, isPotdDoneForToday.
    cbn [markComplete problems stats lastCompletedDate].
    rewrite length_map. destruct (problems st); [congruence|].
    cbn [List.length Nat.eqb]. now rewrite Hd, String.eqb_refl. }
  split; [exact H|]. unfold buttons. now rewrite H.
Qed.

Lemma buttons_complete (st : State) (now : Z) (problemId : string) :
  In (MarkCompleteButton problemId) (buttons st now) ->
  exists p, In p (problems st) /\ id p = problemId /\ completed p = false.
Proof.
  unfold buttons. intros H. apply in_app_or in H. destruct H as [H|H].
  - destruct (mainContent st now) as [| |p| |] eqn:E; cbn in H;
      try contradiction.
    destruct H as [[= <-]|[]].
    destruct (nextIncompleteProblem_spec st p (mainContent_today st now p E))
      as (Hp & before & after & Eps & _).
    exists p. repeat split; auto. rewrite Eps. apply in_elt.
  - unfold historyButtons in H. apply in_map_iff in H.
    destruct H as (p & Hb & Hin). exists p.
    destruct (completed p); [discriminate Hb|]. injection Hb as <-. auto.
Qed.

Lemma buttons_incomplete (st : State) (now : Z) (problemId : string) :
  In (MarkIncompleteButton problemId) (buttons st now) ->
  exists p, In p (problems st) /\ id p = problemId /\ completed p = true.
Proof.
  unfold buttons. intros H. apply in_app_or in H. destruct H as [H|H].
  - destruct (mainContent st now); cbn in H; try contradiction.
    destruct H as [H|[]]. discriminate H.
  - unfold historyButtons in H. apply in_map_iff in H.
    destruct H as (p & Hb & Hin). exists p.
    destruct (completed p); [|discriminate Hb]. injection Hb as <-. auto.
Qed.

Lemma unique_id (ps : list Problem) (p : Problem) :
  NoDup (map id ps) -> In p ps ->
  occurrences (id p) ps = 1%nat /\
  forall q, In q ps -> id q = id p -> q = p.
Proof.
  unfold occurrences. induction ps as [|x ps IH]; intros Hnd Hin.
  - contradiction.
  - cbn [map] in Hnd. inversion Hnd as [|? ? Hx Hnd']; subst.
    cbn [filter]. destruct Hin as [->|Hin].
    + rewrite String.eqb_refl. cbn [List.length]. split.
      * f_equal. apply length_zero_iff_nil.
        destruct (filter _ ps) as [|q l] eqn:Ef; [reflexivity|].
        exfalso. assert (Hq : In q (filter (fun p0 => (id p0 =? id p)%string) ps))
          by (rewrite Ef; now left).
        apply filter_In in Hq. destruct Hq as [Hq Heq].
        apply String.eqb_eq in Heq. apply Hx. rewrite <- Heq.
        now apply in_map.
      * intros q [->|Hq] He; [reflexivity|]. exfalso. apply Hx.
        rewrite <- He. now apply in_map.
    + destruct (IH Hnd' Hin) as [H1 H2].
      destruct (String.eqb_spec (id x) (id p)) as [E|E].
      * exfalso. apply Hx. rewrite E. now apply in_map.
      * split; [exact H1|]. intros q [->|Hq] He; [contradiction|auto].
Qed.

(** A mark button on screen names one Problem of the store, an open one. *)
Lemma button_names_one_open (st : State) (now : Z) (problemId : string) :
  NoDup (map id (problems st)) ->
  In (MarkCompleteButton problemId) (buttons st now) ->
  occurrences problemId (problems st) = 1%nat /\
  notYetCompleted problemId (problems st).
Proof.
  intros Hnd Hb. destruct (buttons_complete st now problemId Hb)
    as (p & Hin & <- & Hc).
  destruct (unique_id _ p Hnd Hin) as [H1 H2]. split; [exact H1|].
  unfold notYetCompleted. rewrite Forall_forall. intros q Hq He.
  now rewrite (H2 q Hq He).
Qed.

(** C1, as the code has it: markComplete is reached from the mark
    buttons only, and a mark button is rendered only for a Problem
    that is not completed.  So when ids are unique a call from a
    button on screen names exactly one Problem, not yet completed, and
    it adds 1 to totalCompleted together with 1 to the number of
    completed Problems: no completion is counted twice.  The guard is
    in the callers; markComplete itself has none. *)
Theorem markComplete_on_screen_counts_once
  (st : State) (rendered now now' : Z) (problemId : string) :
  NoDup (map id (problems st)) ->
  In (MarkCompleteButton problemId) (buttons st rendered) ->
  let st' := markComplete problemId now now' st in
  occurrences problemId (problems st) = 1%nat /\
  notYetCompleted problemId (problems st) /\
  countCompleted (problems st') = countCompleted (problems st) + 1 /\
  totalCompleted (stats st') = totalCompleted (stats st) + 1.
Proof.
  intros Hnd Hb. cbv zeta.
  destruct (button_names_one_open _ _ _ Hnd Hb) as [H1 Hopen].
  split; [exact H1|]. split; [exact Hopen|]. split.
  - cbn [markComplete problems].
    rewrite (countCompleted_mark _ _ _ Hopen), H1. reflexivity.
  - apply markComplete_total.
Qed.

Lemma map_id_update (problemId : string) (f : Problem -> Problem)
  (ps : list Problem) :
  (forall p, id (f p) = id p) ->
  map id (map (fun p => if (id p =? problemId)%string then f p else p) ps)
  = map id ps.
Proof.
  intros Hf. rewrite map_map. apply map_ext. intros p.
  destruct (id p =? problemId)%string; [apply Hf|reflexivity].
Qed.

Lemma click_ids (st : State) (c : Click) :
  map id (problems (click st c)) = map id (problems st).
Proof.
  unfold click. destruct (button c); cbn [markComplete markIncomplete problems];
    apply map_id_update; reflexivity.
Qed.

Lemma datesPresent_mark (problemId today : string) (ps : list Problem) :
  today <> EmptyString ->
  datesPresent ps ->
  datesPresent
    (map (fun p => if (id p =? problemId)%string
                   then setCompleted p today else p) ps).
Proof.
  unfold datesPresent. intros Hne H. apply Forall_map.
  eapply Forall_impl; [|exact H]. intros p Hp.
  destruct (id p =? problemId)%string; [|exact Hp].
  intros _. cbn. apply negb_true_iff, String.eqb_neq, Hne.
Qed.

Lemma click_countKept (st : State) (c : Click) :
  (forall t, toDateString t <> EmptyString) ->
  countKept st ->
  In (button c) (buttons st (renderedAt c)) ->
  countKept (click st c).
Proof.
  intros Hne (Hnd & Hd & Ht) Hb. unfold countKept.
  split; [now rewrite click_ids|]. unfold click in *.
  destruct (button c) as [problemId|problemId].
  - destruct (button_names_one_open _ _ _ Hnd Hb) as [H1 Hopen]. split.
    + cbn [markComplete problems]. apply datesPresent_mark; auto.
    + rewrite markComplete_total. cbn [markComplete problems].
      rewrite (countCompleted_mark _ _ _ Hopen), H1, Ht. reflexivity.
  - cbn [markIncomplete problems stats].
    pose proof (datesPresent_unmark problemId _ Hd) as Hd'.
    split; [exact Hd'|]. rewrite recalculate_total. unfold countCompleted.
    now rewrite (datesPresent_filter _ Hd').
Qed.

(** X14: when ids are unique, completed Problems are dated and
    totalCompleted is the number of completed Problems, this stays so
    through every session of clicks on buttons that are on screen: the
    count shown in the Stats is the number of completedProblems. *)
Theorem session_keeps_count (clicks : list Click) :
  (forall t, toDateString t <> EmptyString) ->
  forall st : State,
    countKept st ->
    onScreen st clicks ->
    let st' := session st clicks in
    countKept st' /\
    totalCompleted (stats st') =
      Z.of_nat (List.length (completedProblems st')).
Proof.
  intros Hne. unfold session.
  induction clicks as [|c clicks IH]; intros st Hk Hs; cbv zeta.
  - cbn. split; [exact Hk|]. apply Hk.
  - cbn [onScreen] in Hs. destruct Hs as [Hb Hs]. cbn [fold_left].
    apply IH; [|exact Hs]. apply click_countKept; assumption.
Qed.

End RenderFacts.

(** ** Sessions of clicks *)

Section Sessions.

Context {rt : JSDate} {engine : JSArray} {off : Z} (Hreg : RegularZone rt off).

Lemma recordedBy_later (now0 now : Z) (ps : list Problem) :
  now0 <= now -> recordedBy off now0 ps -> recordedBy off now ps.
Proof.
  intros Hle. unfold recordedBy. apply Forall_impl.
  intros p Hp Hc. destruct (Hp Hc) as (t & Hw & Ht & Hd).
  exists t. split; [exact Hw|]. split; [lia|exact Hd].
Qed.

Lemma recordedBy_mark (problemId : string) (now : Z) (ps : list Problem) :
  inWindow off now ->
  recordedBy off now ps ->
  recordedBy off now
    (map (fun p => if (id p =? problemId)%string
                   then setCompleted p (toDateString now) else p) ps).
Proof.
  intros Hn. unfold recordedBy. intros H. apply Forall_map.
  eapply Forall_impl; [|exact H]. intros p Hp.
  destruct (id p =? problemId)%string; [|exact Hp].
  intros _. exists now. split; [exact Hn|]. split; [lia|reflexivity].
Qed.

Lemma recordedBy_unmark (problemId : string) (now : Z) (ps : list Problem) :
  recordedBy off now ps ->
  recordedBy off now
    (map (fun p => if (id p =? problemId)%string
                   then setIncomplete p else p) ps).
Proof.
  unfold recordedBy. intros H. apply Forall_map.
  eapply Forall_impl; [|exact H]. intros p Hp.
  destruct (id p =? problemId)%string; [discriminate|exact Hp].
Qed.

(** One click on screen, not before the Stats were last recomputed. *)
Lemma click_upToDate (st : State) (c : Click) (t : Z) :
  NoDup (map id (problems st)) ->
  upToDate off t st ->
  In (button c) (buttons st (renderedAt c)) ->
  timely off t [c] ->
  stats (click st c) =
    recalculateStatsFromHistory (stats st) (problems (click st c))
      (clickedAt c) /\
  recordedBy off (clickedAt c) (problems (click st c)).
Proof.
  intros Hnd (s0 & now0 & Hle & Hs & Hrec) Hb (Ht & Hw & _).
  unfold click in *. destruct (button c) as [problemId|problemId].
  - destruct Hw as (Hn & Hn' & Hy & Hsame).
    destruct (button_names_one_open _ _ _ Hnd Hb) as [H1 Hopen]. split.
    + apply (markComplete_as_recompute Hreg problemId _ _ now0 s0 st);
        auto; lia.
    + cbn [markComplete problems]. apply recordedBy_mark; [exact Hn|].
      apply (recordedBy_later now0); [lia|exact Hrec].
  - cbn [markIncomplete problems stats]. split; [reflexivity|].
    apply recordedBy_unmark. apply (recordedBy_later now0); [lia|exact Hrec].
Qed.

Lemma click_keeps_upToDate (st : State) (c : Click) (t : Z) :
  NoDup (map id (problems st)) ->
  upToDate off t st ->
  In (button c) (buttons st (renderedAt c)) ->
  timely off t [c] ->
  upToDate off (clickedAt c) (click st c).
Proof.
  intros Hnd Hu Hb Ht.
  destruct (click_upToDate st c t Hnd Hu Hb Ht) as [Hs Hrec].
  exists (stats st), (clickedAt c). split; [lia|]. split; assumption.
Qed.

(** X15: on a host in a zone with a fixed offset from UTC (no daylight
    saving): from a store with unique ids whose Stats are those of a
    recomputation made not after [t] over dates that markComplete
    wrote by then, through clicks on buttons that are on screen, taken
    in the order of the clock from [t] on, every mark reading the
    clock twice on one local day (local dates from Fri Jan 02 1970 to
    the end of year 9999): every click leaves exactly the Stats of a
    full recomputation over the store at the moment of the click, and
    a recomputation right after it changes nothing. *)
Theorem session_keeps_stats_recomputed (clicks : list Click) :
  forall (st : State) (t : Z) (c : Click),
    NoDup (map id (problems st)) ->
    upToDate off t st ->
    onScreen st (clicks ++ [c]) ->
    timely off t (clicks ++ [c]) ->
    let before := session st clicks in
    let after := click before c in
    stats after =
      recalculateStatsFromHistory (stats before) (problems after)
        (clickedAt c) /\
    recompute (clickedAt c) after = after.
Proof.
  induction clicks as [|c0 clicks IH]; intros st t c Hnd Hu Hs Ht; cbv zeta.
  - cbn [app onScreen session fold_left] in *.
    destruct (click_upToDate st c t Hnd Hu (proj1 Hs) Ht) as [H _].
    split; [exact H|]. unfold recompute.
    destruct (click st c) as [ps' s']. cbn [problems stats] in *.
    f_equal. rewrite H at 1. rewrite recalculate_idempotent. now rewrite <- H.
  - cbn [app onScreen timely] in Hs, Ht.
    destruct Hs as [Hb Hs]. destruct Ht as (Ht0 & Hw & Ht).
    unfold session. cbn [fold_left]. fold (session (click st c0) clicks).
    apply (IH (click st c0) (clickedAt c0) c); auto.
    + now rewrite click_ids.
    + apply (click_keeps_upToDate st c0 t); auto.
      cbn [timely]. auto.
Qed.

End Sessions.

(** ** Trimming, splitting and matching *)

Section Text.

Lemma trimStart_clean (s : string) : startsClean (trimStart s).
Proof.
  induction s as [|c s IH]; cbn; [exact I|].
  destruct (isWhiteSpace c) eqn:E; [exact IH|exact E].
Qed.

Lemma trimStart_id (s : string) : startsClean s -> trimStart s = s.
Proof. destruct s as [|c s]; cbn; [reflexivity|]. now intros ->. Qed.

Lemma trimEnd_head (c : ascii) (s : string) :
  trimEnd (String c s) = EmptyString \/
  exists t, trimEnd (String c s) = String c t.
Proof.
  cbn. destruct (trimEnd s).
  - destruct (isWhiteSpace c); [now left|right; now eexists].
  - right. now eexists.
Qed.

Lemma trimEnd_clean (s : string) : startsClean s -> startsClean (trimEnd s).
Proof.
  destruct s as [|c s]; [trivial|]. intros H.
  destruct (trimEnd_head c s) as [->|[t ->]]; [exact I|exact H].
Qed.

Lemma trimEnd_idempotent (s : string) : trimEnd (trimEnd s) = trimEnd s.
Proof.
  induction s as [|c s IH]; [reflexivity|]. cbn [trimEnd].
  destruct (trimEnd s) as [|c' t] eqn:E.
  - destruct (isWhiteSpace c) eqn:Ec; [reflexivity|].
    cbn. now rewrite Ec.
  - change (trimEnd (String c (String c' t)))
      with (match trimEnd (String c' t) with
            | EmptyString =>
                if isWhiteSpace c then EmptyString else String c EmptyString
            | String a u => String c (String a u)
            end).
    now rewrite IH.
Qed.

Lemma trim_idempotent (s : string) : trim (trim s) = trim s.
Proof.
  unfold trim.
  rewrite (trimStart_id (trimEnd (trimStart s)))
    by apply trimEnd_clean, trimStart_clean.
  apply trimEnd_idempotent.
Qed.

Lemma trimEnd_noWhiteSpace (s : string) : noWhiteSpace s -> trimEnd s = s.
Proof.
  induction s as [|c s IH]; [reflexivity|]. intros [Hc Hs]. cbn [trimEnd].
  rewrite (IH Hs). destruct s; [now rewrite Hc|reflexivity].
Qed.

Lemma trimEnd_app (a b : string) :
  b <> EmptyString -> trimEnd b = b -> trimEnd (a ++ b) = (a ++ b)%string.
Proof.
  intros Hne Hb. induction a as [|c a IH]; [exact Hb|].
  cbn [append trimEnd]. rewrite IH.
  destruct (a ++ b)%string eqn:E; [|reflexivity].
  destruct a; [cbn in E; contradiction|discriminate E].
Qed.

(** Digits of a number. *)
Lemma uint_digits (u : Decimal.uint) :
  noWhiteSpace (NilEmpty.string_of_uint u) /\
  noDash (NilEmpty.string_of_uint u).
Proof.
  induction u; cbn; repeat split; try apply IHu; discriminate.
Qed.

Lemma numberToString_nat (n : nat) :
  noWhiteSpace (numberToString (Z.of_nat n)) /\
  noDash (numberToString (Z.of_nat n)) /\
  numberToString (Z.of_nat n) <> EmptyString.
Proof.
  unfold numberToString. destruct (Z.of_nat n) as [|p|p] eqn:E; try lia.
  - cbn. repeat split; discriminate.
  - cbn [Z.to_int NilEmpty.string_of_int].
    destruct (uint_digits (Pos.to_uint p)) as [H1 H2].
    repeat split; auto. intros H.
    pose proof (NilEmpty.usu (Pos.to_uint p)) as U. rewrite H in U.
    cbn in U. injection U as U.
    pose proof (DecimalPos.Unsigned.of_to p) as P. unfold Pos.of_uint in *.
    rewrite <- U in P. discriminate P.
Qed.

Lemma numberToString_inj (a b : Z) :
  numberToString a = numberToString b -> a = b.
Proof.
  unfold numberToString. intros H. apply DecimalZ.to_int_inj.
  pose proof (NilEmpty.isi (Z.to_int a)) as Ha.
  pose proof (NilEmpty.isi (Z.to_int b)) as Hb.
  rewrite H in Ha. congruence.
Qed.









End Text.

(** ** The parser of the upload box *)

Section Parser.

Lemma parseLine_title (now : Z) (index : nat) (line : string) :
  title (parseLine now index line) =
  orPlaceholder
    (trim (replaceFirst (url (parseLine now index line)) line))
    ("Problem " ++ numberToString (Z.of_nat index + 1)).
Proof.
  unfold parseLine, orPlaceholder. cbn [title url].
  destruct (trim _); reflexivity.
Qed.



Lemma placeholder_trimmed (n : nat) :
  trim ("Problem " ++ numberToString (Z.of_nat n)) =
  ("Problem " ++ numberToString (Z.of_nat n))%string.
Proof.
  destruct (numberToString_nat n) as (Hw & _ & Hne).
  unfold trim. rewrite trimStart_id by reflexivity.
  apply trimEnd_app; [exact Hne|]. apply trimEnd_noWhiteSpace, Hw.
Qed.

(** X17: the title of a parsed Problem is never empty and has no white
    space at either end. *)
Theorem parseLine_title_trimmed (now : Z) (index : nat) (line : string) :
  let p := parseLine now index line in
  title p <> EmptyString /\ trim (title p) = title p.
Proof.
  cbv zeta. rewrite parseLine_title. unfold orPlaceholder.
  destruct (trim (replaceFirst _ line)) as [|c t] eqn:E.
  - replace (Z.of_nat index + 1) with (Z.of_nat (S index)) by lia.
    split; [discriminate|apply placeholder_trimmed].
  - split; [discriminate|]. rewrite <- E. apply trim_idempotent.
Qed.

Lemma noDash_app (a b : string) : ~ noDash (a ++ String "-" b).
Proof.
  induction a as [|c a IH]; cbn.
  - intros [H _]. now apply H.
  - intros [_ H]. exact (IH H).
Qed.

Lemma dash_suffix (a a' b b' : string) :
  noDash b -> noDash b' ->
  (a ++ String "-" b)%string = (a' ++ String "-" b')%string ->
  a = a' /\ b = b'.
Proof.
  intros Hb Hb'. revert a'. induction a as [|c a IH]; intros [|c' a'];
    cbn [append]; intros H.
  - injection H as ->. auto.
  - injection H as <- ->. exfalso. exact (noDash_app _ _ Hb).
  - injection H as -> <-. exfalso. exact (noDash_app _ _ Hb').
  - injection H as -> H. destruct (IH a' H) as [-> ->]. auto.
Qed.

Lemma append_cancel (p a b : string) :
  (p ++ a)%string = (p ++ b)%string -> a = b.
Proof.
  induction p as [|c p IH]; cbn [append]; [trivial|].
  intros [= H]. exact (IH H).
Qed.

(** An id tells the reading of the clock and the index it was made of. *)
Lemma problemId_inj (now now' : Z) (i j : nat) :
  problemId now i = problemId now' j -> now = now' /\ i = j.
Proof.
  unfold problemId. intros H. apply append_cancel in H.
  destruct (numberToString_nat i) as (_ & Hi & _).
  destruct (numberToString_nat j) as (_ & Hj & _).
  apply (dash_suffix _ _ _ _ Hi Hj) in H. destruct H as [Ha Hb].
  apply numberToString_inj in Ha. apply numberToString_inj in Hb.
  split; [exact Ha|lia].
Qed.

Lemma mapLines_ids (clock : nat -> Z) (lines : list string) :
  forall k x,
    In x (map id (mapLines clock k lines)) ->
    exists j, (k <= j)%nat /\ x = problemId (clock j) j.
Proof.
  induction lines as [|line lines IH]; intros k x; cbn; [contradiction|].
  intros [<-|H].
  - exists k. split; [lia|reflexivity].
  - destruct (IH (S k) x H) as (j & Hj & ->). exists j. split; [lia|reflexivity].
Qed.

Lemma mapLines_NoDup (clock : nat -> Z) (lines : list string) :
  forall k, NoDup (map id (mapLines clock k lines)).
Proof.
  induction lines as [|line lines IH]; intros k; cbn; constructor.
  - intros H. apply mapLines_ids in H. destruct H as (j & Hj & H).
    apply problemId_inj in H. lia.
  - apply IH.
Qed.

Lemma mapLines_open (clock : nat -> Z) (lines : list string) :
  forall k,
    Forall (fun p => completed p = false /\ completedDate p = None)
      (mapLines clock k lines).
Proof.
  induction lines as [|line lines IH]; intros k; cbn; constructor; auto.
Qed.

Lemma mapLines_length (clock : nat -> Z) (lines : list string) :
  forall k, List.length (mapLines clock k lines) = List.length lines.
Proof.
  induction lines as [|line lines IH]; intros k; cbn; [reflexivity|].
  now rewrite IH.
Qed.

(** X18: the ids of one parsed text are pairwise distinct whatever the
    clock returns, and differ from those of another parsed text when
    no reading of the clock is shared. *)
Theorem parseProblems_ids_distinct (clock : nat -> Z) (input : string) :
  NoDup (map id (parseProblems clock input)) /\
  (forall clock' input' p p',
     In p (parseProblems clock input) ->
     In p' (parseProblems clock' input') ->
     (forall i j, clock i <> clock' j) ->
     id p <> id p').
Proof.
  split; [apply mapLines_NoDup|].
  unfold parseProblems. intros clock' input' p p' Hp Hp' Hc He.
  apply (in_map id) in Hp. apply (in_map id) in Hp'.
  apply mapLines_ids in Hp. apply mapLines_ids in Hp'.
  destruct Hp as (i & _ & Hi). destruct Hp' as (j & _ & Hj).
  rewrite Hi, Hj in He. apply problemId_inj in He.
  exact (Hc i j (proj1 He)).
Qed.

(** A text that is not blank has a first line that is not. *)
Lemma inputLines_nonempty (input : string) :
  trim input <> EmptyString -> inputLines input <> [].
Proof.
  unfold inputLines. intros Hne.
  pose proof (trimEnd_clean _ (trimStart_clean input)) as Hc.
  fold (trim input) in Hc.
  destruct (trim input) as [|c t]; [congruence|]. cbn in Hc.
  assert (Hnl : (c =? "010")%char = false).
  { destruct (Ascii.eqb_spec c "010"%char) as [->|]; [discriminate Hc|reflexivity]. }
  cbn [splitLines]. rewrite Hnl.
  assert (Hl : forall piece, nonEmpty (trim (String c piece)) = true).
  { intros piece. unfold trim. cbn [trimStart]. rewrite Hc.
    destruct (trimEnd_head c piece) as [H|[u H]].
    - cbn in H. destruct (trimEnd piece); [|discriminate H].
      rewrite Hc in H. discriminate H.
    - now rewrite H. }
  destruct (splitLines t) as [|piece pieces]; cbn [filter]; rewrite Hl;
    discriminate.
Qed.

Lemma platformOf_cases (url : string) :
  In (platformOf url)
    ["LeetCode"; "Codeforces"; "CodeChef"; "HackerRank"; "Unknown"]%string.
Proof.
  unfold platformOf.
  destruct (includes "leetcode" url); [cbn; auto|].
  destruct (includes "codeforces" url); [cbn; auto|].
  destruct (includes "codechef" url); [cbn; auto|].
  destruct (includes "hackerrank" url); cbn; auto 6.
Qed.

(** X20: the platform of a parsed Problem is one of LeetCode, Codeforces,
    CodeChef, HackerRank and Unknown, and PlatformTag has a colour
    class of its own for it in light and in dark mode. *)
Theorem parsed_platform_has_a_colour
  (now : Z) (index : nat) (line : string) (darkMode : bool) :
  let p := parseLine now index line in
  In (platform p)
    ["LeetCode"; "Codeforces"; "CodeChef"; "HackerRank"; "Unknown"]%string /\
  exists colours,
    ownProperty (platform p)
      (if darkMode then darkModeColors else lightModeColors) = Some colours /\
    platformTagClass (platform p) darkMode =
      Some ("text-xs px-2 py-1 rounded-full " ++ colours)%string.
Proof.
  cbv zeta. unfold parseLine. cbn [platform].
  pose proof (platformOf_cases
                match matchUrl line with Some m => m | None => EmptyString end)
    as H.
  split; [exact H|]. unfold platformTagClass.
  cbn [In] in H.
  destruct H as [<-|[<-|[<-|[<-|[<-|[]]]]]]; destruct darkMode;
    eexists; split; reflexivity.
Qed.

End Parser.

(** ** The upload handler *)

Section Upload.

Context {rt : JSDate} {engine : JSArray}.

(** X19: handleUploadProblems does nothing on a blank text; otherwise it
    clears the form and adds at least one Problem; in both cases the
    Stats, the Problems already in the store and their order, the
    number of completed Problems and the result of every recomputation
    stay as they were, and every added Problem is open and undated. *)
Theorem handleUploadProblems_appends_open_problems
  (clock : nat -> Z) (form : UploadForm) (st : State) :
  let result := handleUploadProblems clock form st in
  let st' := snd result in
  (trim (problemInput form) = EmptyString -> result = (form, st)) /\
  (trim (problemInput form) <> EmptyString ->
   fst result = {| problemInput := EmptyString; showUpload := false |} /\
   (List.length (problems st) < List.length (problems st'))%nat) /\
  stats st' = stats st /\
  firstn (List.length (problems st)) (problems st') = problems st /\
  Forall (fun p => completed p = false /\ completedDate p = None)
    (skipn (List.length (problems st)) (problems st')) /\
  countCompleted (problems st') = countCompleted (problems st) /\
  (forall s now,
     recalculateStatsFromHistory s (problems st') now =
     recalculateStatsFromHistory s (problems st) now).
Proof.
  cbv zeta. unfold handleUploadProblems.
  destruct (trim (problemInput form)) as [|c t] eqn:E; cbn [nonEmpty negb].
  - cbn [snd fst]. rewrite firstn_all, skipn_all.
    split; [reflexivity|]. split; [congruence|].
    split; [reflexivity|]. split; [reflexivity|].
    split; [constructor|]. split; reflexivity.
  - cbn [snd fst problems stats].
    rewrite firstn_app, firstn_all, Nat.sub_diag, app_nil_r.
    rewrite skipn_app, skipn_all, Nat.sub_diag. cbn [skipn app].
    pose proof (mapLines_open clock (inputLines (problemInput form)) 0) as Ho.
    fold (parseProblems clock (problemInput form)) in Ho.
    assert (Hf : filter completed (parseProblems clock (problemInput form)) = []
                 /\ filter isCompleted (parseProblems clock (problemInput form)) = []).
    { induction Ho as [|p l [Hp _] _ [IH1 IH2]]; [split; reflexivity|].
      unfold isCompleted in *. cbn [filter]. rewrite Hp. cbn [andb]. auto. }
    destruct Hf as [Hf1 Hf2].
    split; [discriminate|]. split; [intros _; split; [reflexivity|]|].
    + rewrite length_app. unfold parseProblems. rewrite mapLines_length.
      assert (Hn : inputLines (problemInput form) <> [])
        by (apply inputLines_nonempty; rewrite E; discriminate).
      destruct (inputLines (problemInput form)); [congruence|]. cbn. lia.
    + split; [reflexivity|]. split; [reflexivity|]. split; [exact Ho|].
      split.
      * unfold countCompleted. now rewrite filter_app, Hf1, app_nil_r.
      * intros s now. apply recalculate_history.
        now rewrite filter_app, Hf2, app_nil_r.
Qed.

End Upload.

(** ** The fixed-offset hosts are regular *)

Import Zone.

Lemma digitVal_digit (k : Z) : 0 <= k <= 9 -> digitVal (digit k) = Some k.
Proof.
  intros H.
  assert (E : k = 0 \/ k = 1 \/ k = 2 \/ k = 3 \/ k = 4 \/
              k = 5 \/ k = 6 \/ k = 7 \/ k = 8 \/ k = 9) by lia.
  repeat (destruct E as [->|E]; [reflexivity|]). subst k. reflexivity.
Qed.

Lemma weekday_name (w : Z) :
  0 <= w <= 6 ->
  exists a b c,
    nth (Z.to_nat w) weekdayNames EmptyString = str3 a b c /\
    indexOf (str3 a b c) weekdayNames 0 = Some w.
Proof.
  intros H.
  assert (E : w = 0 \/ w = 1 \/ w = 2 \/ w = 3 \/ w = 4 \/ w = 5 \/ w = 6)
    by lia.
  repeat (destruct E as [->|E];
          [do 3 eexists; split; reflexivity|]).
  subst w. do 3 eexists; split; reflexivity.
Qed.

Lemma month_name (m : Z) :
  1 <= m <= 12 ->
  exists a b c,
    nth (Z.to_nat (m - 1)) monthNames EmptyString = str3 a b c /\
    indexOf (str3 a b c) monthNames 1 = Some m.
Proof.
  intros H.
  assert (E : m = 1 \/ m = 2 \/ m = 3 \/ m = 4 \/ m = 5 \/ m = 6 \/
              m = 7 \/ m = 8 \/ m = 9 \/ m = 10 \/ m = 11 \/ m = 12) by lia.
  repeat (destruct E as [->|E];
          [do 3 eexists; split; reflexivity|]).
  subst m. do 3 eexists; split; reflexivity.
Qed.

Lemma paddedYear_four (y : Z) :
  1000 <= y <= 9999 ->
  paddedYear y =
  String (digit (y / 10 / 10 / 10 mod 10))
    (String (digit (y / 10 / 10 mod 10))
       (String (digit (y / 10 mod 10))
          (String (digit (y mod 10)) EmptyString))).
Proof.
  intros H. unfold paddedYear.
  rewrite Z.abs_eq by lia.
  change 20%nat with (S (S (S (S 16)))). cbn [digitsOf].
  assert (E0 : (y <? 10) = false) by (apply Z.ltb_ge; lia).
  assert (E1 : (y / 10 <? 10) = false)
    by (apply Z.ltb_ge; Z.div_mod_to_equations; lia).
  assert (E2 : (y / 10 / 10 <? 10) = false)
    by (apply Z.ltb_ge; Z.div_mod_to_equations; lia).
  assert (E3 : (y / 10 / 10 / 10 <? 10) = true)
    by (apply Z.ltb_lt; Z.div_mod_to_equations; lia).
  rewrite E0, E1, E2, E3. cbn [String.length Nat.sub padLeft].
  assert (E : (y <? 0) = false) by (apply Z.ltb_ge; lia).
  now rewrite E.
Qed.

Lemma parse_assembled
  (w1 w2 w3 m1 m2 m3 a b c e f g : ascii) (wi m da db yc ye yf yg : Z) :
  indexOf (str3 w1 w2 w3) weekdayNames 0 = Some wi ->
  indexOf (str3 m1 m2 m3) monthNames 1 = Some m ->
  digitVal a = Some da -> digitVal b = Some db ->
  digitVal c = Some yc -> digitVal e = Some ye ->
  digitVal f = Some yf -> digitVal g = Some yg ->
  1 <= 10 * da + db <= 31 ->
  forall off,
  parseDateString off
    (str3 w1 w2 w3 ++ " " ++ str3 m1 m2 m3 ++ " "
     ++ String a (String b EmptyString) ++ " "
     ++ String c (String e (String f (String g EmptyString))))%string =
  Some (daysFromCivil (1000 * yc + 100 * ye + 10 * yf + yg) m (10 * da + db)
        * msPerDay - off).
Proof.
  intros Hw Hm Ha Hb Hc He Hf Hg Hd off.
  cbn [str3 append parseDateString].
  cbn [Ascii.eqb Bool.eqb andb].
  change (String w1 (String w2 (String w3 EmptyString))) with (str3 w1 w2 w3).
  change (String m1 (String m2 (String m3 EmptyString))) with (str3 m1 m2 m3).
  rewrite Hw, Hm, Ha, Hb, Hc, He, Hf, Hg.
  destruct (Z.leb_spec 1 (10 * da + db)); [|lia].
  destruct (Z.leb_spec (10 * da + db) 31); [|lia].
  reflexivity.
Qed.

Lemma civilFromDays_spec (z : Z) :
  0 <= z < 2932897 ->
  exists y m d,
    civilFromDays z = (y, m, d) /\
    1970 <= y <= 9999 /\ 1 <= m <= 12 /\ 1 <= d <= 31 /\
    daysFromCivil y m d = z.
Proof.
  intros H. unfold civilFromDays. cbv zeta.
  set (z' := z + 719468).
  set (era := z' / 146097).
  set (doe := z' - era * 146097).
  set (yoe := (doe - doe / 1460 + doe / 36524 - doe / 146096) / 365).
  set (doy := doe - (365 * yoe + yoe / 4 - yoe / 100)).
  set (mp := (5 * doy + 2) / 153).
  set (d := doy - (153 * mp + 2) / 5 + 1).
  set (m := if mp <? 10 then mp + 3 else mp - 9).
  set (y := yoe + era * 400).
  assert (Hdoe : 0 <= doe < 146097).
  { subst doe era. Z.div_mod_to_equations. lia. }
  assert (F : 0 <= yoe <= 399 /\ 0 <= doy <= 365 /\
              0 <= mp <= 11 /\ 1 <= d <= 31).
  { subst d mp doy yoe. clearbody doe. clear -Hdoe.
    Z.div_mod_to_equations. lia. }
  destruct F as (Hyoe & Hdoy & Hmp & Hd).
  assert (Hm : 1 <= m <= 12 /\
               (if 2 <? m then m - 3 else m + 9) = mp /\
               ((m <=? 2) = true <-> 10 <= mp)).
  { subst m. destruct (Z.ltb_spec mp 10).
    - destruct (Z.ltb_spec 2 (mp + 3)); destruct (Z.leb_spec (mp + 3) 2);
        repeat split; try lia; discriminate.
    - destruct (Z.ltb_spec 2 (mp - 9)); destruct (Z.leb_spec (mp - 9) 2);
        repeat split; try lia; discriminate. }
  destruct Hm as (Hm & Hmp' & Hjf).
  exists (if m <=? 2 then y + 1 else y), m, d.
  split; [reflexivity|].
  assert (Hrt : daysFromCivil (if m <=? 2 then y + 1 else y) m d = z).
  { unfold daysFromCivil. cbv zeta. rewrite Hmp'.
    replace (if m <=? 2 then (if m <=? 2 then y + 1 else y) - 1
             else if m <=? 2 then y + 1 else y) with y
      by (destruct (m <=? 2); lia).
    assert (Ey : y / 400 = era)
      by (subst y; clearbody yoe era; Z.div_mod_to_equations; lia).
    rewrite Ey. replace (y - era * 400) with yoe by (subst y; lia).
    subst d doy. clearbody mp yoe. subst doe z'. lia. }
  split; [|split; [exact Hm|split; [exact Hd|exact Hrt]]].
  assert (Hera : 4 <= era <= 24)
    by (subst era z'; Z.div_mod_to_equations; lia).
  assert (Hz : z' = era * 146097 + doe) by (subst doe; lia).
  assert (Hz' : 719468 <= z' < 3652365) by (subst z'; lia).
  assert (Hy : y = yoe + era * 400) by reflexivity.
  assert (Hmpd : mp = (5 * doy + 2) / 153) by reflexivity.
  assert (Hdoyd : doy = doe - (365 * yoe + yoe / 4 - yoe / 100))
    by reflexivity.
  clearbody y mp doy yoe doe era z'. clear Hrt Hmp' d Hd.
  destruct (Z.leb_spec m 2) as [Hle|Hgt].
  - assert (10 <= mp) by (apply Hjf; reflexivity).
    clear Hjf. Z.div_mod_to_equations. lia.
  - assert (mp < 10).
    { destruct (Z.lt_ge_cases mp 10) as [|G]; [assumption|].
      apply Hjf in G. discriminate G. }
    clear Hjf. Z.div_mod_to_equations. lia.
Qed.

Lemma parse_DateString (off t : Z) :
  inWindow off t ->
  parseDateString off (DateString off t) = Some (midnight off t).
Proof.
  intros Ht. unfold DateString, LocalTime, midnight, localDay.
  assert (Hz : 0 <= Day (t + off) < 2932897).
  { unfold Day, inWindow in *. change msPerDay with 86400000.
    Z.div_mod_to_equations. lia. }
  destruct (civilFromDays_spec (Day (t + off)) Hz)
    as (y & m & d & -> & Hy & Hm & Hd & Hrt).
  assert (Hw : 0 <= WeekDay (t + off) <= 6).
  { unfold WeekDay. Z.div_mod_to_equations. lia. }
  destruct (weekday_name _ Hw) as (w1 & w2 & w3 & -> & Hwi).
  destruct (month_name _ Hm) as (m1 & m2 & m3 & -> & Hmi).
  rewrite paddedYear_four by lia. unfold twoDigits.
  rewrite (parse_assembled _ _ _ _ _ _ _ _ _ _ _ _ _ m
             (d / 10) (d mod 10)
             (y / 10 / 10 / 10 mod 10) (y / 10 / 10 mod 10)
             (y / 10 mod 10) (y mod 10) Hwi Hmi);
    try (apply digitVal_digit; Z.div_mod_to_equations; lia).
  - replace (10 * (d / 10) + d mod 10) with d
      by (Z.div_mod_to_equations; lia).
    replace (1000 * (y / 10 / 10 / 10 mod 10) + 100 * (y / 10 / 10 mod 10)
             + 10 * (y / 10 mod 10) + y mod 10) with y
      by (Z.div_mod_to_equations; lia).
    rewrite Hrt. reflexivity.
  - Z.div_mod_to_equations. lia.
Qed.

(** A host at a fixed offset from UTC is a regular zone. *)
Lemma host_regular (localTZA : Z) : RegularZone (host localTZA) localTZA.
Proof.
  constructor.
  - exact (parse_DateString localTZA).
  - intros t t' _ _ E. cbn [toDateString host].
    unfold DateString, WeekDay, LocalTime, localDay, Day in *.
    now rewrite E.
  - intros t Ht E. pose proof (parse_DateString localTZA t Ht) as P.
    cbn [toDateString host] in E. rewrite E in P. discriminate P.
  - intros t _ _. reflexivity.
Qed.

(** ** The recorder on the host at UTC *)

Import Examples.

(** The date strings of the host. *)
Example toDateString_noon :
  toDateString noon = "Mon Nov 02 2026"%string /\
  getTime "Mon Nov 02 2026" = Some (noon - 12 * 3600000).
Proof. split; reflexivity. Qed.

(** Half past six in the evening at UTC is midnight in India. *)
Example toDateString_india :
  DateString ist (noon + 23400000 - 1) = "Mon Nov 02 2026"%string /\
  DateString ist (noon + 23400000) = "Tue Nov 03 2026"%string /\
  parseDateString ist "Tue Nov 03 2026" = Some (noon + 23400000).
Proof. repeat split; reflexivity. Qed.

(** Completions on three days in a row make a streak of 3. *)
Example three_days_in_a_row :
  stats (run threeOpen [OpMarkComplete idA noon noon;
                        OpMarkComplete idB (daysLater 1) (daysLater 1);
                        OpMarkComplete idC (daysLater 2) (daysLater 2)]) =
  {| currentStreak := 3; longestStreak := 3; totalCompleted := 3;
     lastCompletedDate := Some "Wed Nov 04 2026"%string |}.
Proof. reflexivity. Qed.

(** Completions five days apart restart the streak. *)
Example five_days_apart :
  stats (run threeOpen [OpMarkComplete idA noon noon;
                        OpMarkComplete idB (daysLater 5) (daysLater 5)]) =
  {| currentStreak := 1; longestStreak := 1; totalCompleted := 2;
     lastCompletedDate := Some "Sat Nov 07 2026"%string |}.
Proof. reflexivity. Qed.

(** Unmarking the oldest of three days in a row leaves a streak of 2;
    the longest streak stays 3. *)
Example unmark_oldest :
  stats (run threeOpen [OpMarkComplete idA noon noon;
                        OpMarkComplete idB (daysLater 1) (daysLater 1);
                        OpMarkComplete idC (daysLater 2) (daysLater 2);
                        OpMarkIncomplete idA (daysLater 2)]) =
  {| currentStreak := 2; longestStreak := 3; totalCompleted := 2;
     lastCompletedDate := Some "Wed Nov 04 2026"%string |}.
Proof. reflexivity. Qed.

(** C1 fails as stated, for the handler taken alone: problem A is
    completed, the store holds one completed problem and
    totalCompleted is 1; markComplete with the id of A leaves one
    completed problem in the store and makes totalCompleted 2. *)
Lemma markComplete_counts_completed_again :
  let st := sundayDone in
  let st' := markComplete idA noon noon st in
  nth_error (problems st) 0 = Some (problemA true (Some "Sun Nov 01 2026"%string)) /\
  totalCompleted (stats st) = 1 /\
  countCompleted (problems st) = 1 /\
  countCompleted (problems st') = 1 /\
  totalCompleted (stats st') = 2.
Proof. vm_compute. repeat split; reflexivity. Qed.

(** The mark button of B, on screen at Monday noon in the store where
    A was done on Sunday. *)
Lemma markComplete_on_screen_counts_once_witness :
  let st' := markComplete idB noon noon sundayDone in
  countCompleted (problems st') = countCompleted (problems sundayDone) + 1 /\
  totalCompleted (stats st') = totalCompleted (stats sundayDone) + 1.
Proof.
  assert (Hnd : NoDup (map id (problems sundayDone)))
    by (cbn; repeat constructor; cbn; intuition discriminate).
  assert (Hb : In (MarkCompleteButton idB) (buttons sundayDone noon))
    by (vm_compute; auto).
  apply (proj2 (proj2 (markComplete_on_screen_counts_once (rt := utc)
                         sundayDone noon noon noon idB Hnd Hb))).
Defined.

(** C2 fails as stated: for an id that matches no Problem of a fresh
    store, markComplete advances totalCompleted and sets
    lastCompletedDate. *)
Lemma markComplete_unknown_id_advances_stats :
  let st := fresh in
  let st' := markComplete "problem-0-0" noon noon st in
  occurrences "problem-0-0" (problems st) = 0%nat /\
  totalCompleted (stats st') <> totalCompleted (stats st) /\
  lastCompletedDate (stats st') <> lastCompletedDate (stats st).
Proof. vm_compute. repeat split; discriminate. Qed.

(** The problem list of the fresh store after an unknown id. *)
Lemma markComplete_unknown_id_keeps_problems_witness :
  problems (markComplete "problem-0-0" noon noon fresh) = problems fresh.
Proof.
  apply (markComplete_unknown_id_keeps_problems (rt := utc)).
  reflexivity.
Defined.

(** C3 fails as stated: after the persisted Stats were lost, marking
    the open problem B gives Stats that a recomputation over the
    updated list does not give. *)
Lemma incremental_differs_after_stats_lost :
  let st := statsLost in
  let st' := markComplete idB noon noon st in
  occurrences idB (problems st) = 1%nat /\
  notYetCompleted idB (problems st) /\
  stats st' <>
  recalculateStatsFromHistory (stats st) (problems st') noon.
Proof.
  cbv zeta. split; [reflexivity|]. split.
  - repeat constructor; intros H; try reflexivity; discriminate H.
  - vm_compute. discriminate.
Qed.

(** C5 fails as stated: after the persisted Stats were lost, marking
    the open problem B leaves totalCompleted at 1 with two completed
    Problems in the store. *)
Lemma totalCompleted_off_after_stats_lost :
  let st' := markComplete idB noon noon statsLost in
  occurrences idB (problems statsLost) = 1%nat /\
  datesPresent (problems statsLost) /\
  totalCompleted (stats st') = 1 /\
  countCompleted (problems st') = 2.
Proof.
  cbv zeta. split; [reflexivity|]. split.
  - repeat constructor; intros H; try reflexivity; discriminate H.
  - vm_compute. split; reflexivity.
Qed.

(** Marking B on Monday in the store where A was done on Sunday. *)
Lemma totalCompleted_counts_completed_witness :
  let st' := markComplete idB noon noon sundayDone in
  totalCompleted (stats st') = countCompleted (problems st').
Proof.
  assert (Hd : datesPresent (problems sundayDone))
    by (repeat constructor; intros H; try reflexivity; discriminate H).
  apply (proj2 (proj2 (totalCompleted_counts_completed (rt := utc)
                         sundayDone Hd))).
  - reflexivity.
  - repeat constructor; intros H; try reflexivity; discriminate H.
  - reflexivity.
Defined.

(** C9 fails as stated: marking and at once unmarking the one open
    problem of a fresh store gives back the problem list but leaves
    longestStreak at 1, from 0. *)
Lemma longestStreak_kept_after_unmark :
  let st := fresh in
  let back := markIncomplete idB noon (markComplete idB noon noon st) in
  notYetCompleted idB (problems st) /\
  problems back = problems st /\
  longestStreak (stats st) = 0 /\
  longestStreak (stats back) = 1.
Proof.
  cbv zeta. split.
  - repeat constructor.
  - vm_compute. repeat split; reflexivity.
Qed.

(** Marking B at noon and unmarking it in the evening, with Stats that
    were up to date. *)
Lemma mark_then_unmark_witness :
  let back := markIncomplete idB evening (markComplete idB noon noon sundayDone) in
  currentStreak (stats back) = currentStreak (stats sundayDone) /\
  totalCompleted (stats back) = totalCompleted (stats sundayDone) /\
  lastCompletedDate (stats back) = lastCompletedDate (stats sundayDone).
Proof.
  assert (Ho : notYetCompleted idB (problems sundayDone))
    by (repeat constructor; intros H; try reflexivity; discriminate H).
  apply (proj2 (mark_then_unmark (rt := utc) idB noon noon evening
                  sundayDone Ho) initialStats).
  reflexivity.
Defined.

(** ** Further properties on the host at UTC *)

Import Sessions.

Lemma DateString_nonempty (localTZA t : Z) :
  DateString localTZA t <> EmptyString.
Proof.
  unfold DateString. destruct (civilFromDays _) as [[y m] d].
  destruct (nth _ weekdayNames EmptyString); discriminate.
Qed.

Lemma threeOpen_countKept : countKept threeOpen.
Proof.
  unfold countKept. split; [|split].
  - cbn. repeat constructor; cbn; intuition discriminate.
  - repeat constructor; discriminate.
  - reflexivity.
Qed.

Lemma threeOpen_upToDate : upToDate 0 noon threeOpen.
Proof.
  exists initialStats, noon. split; [lia|]. split; [reflexivity|].
  repeat constructor; discriminate.
Qed.

(** Unmarking B, which is open, in the store where A was done on Sunday. *)
Lemma markIncomplete_open_is_recompute_witness :
  stats (markIncomplete idB noon sundayDone) = stats (recompute noon sundayDone).
Proof.
  assert (Ho : notYetCompleted idB (problems sundayDone))
    by (repeat constructor; intros H; try reflexivity; discriminate H).
  apply (markIncomplete_open_is_recompute (rt := utc) idB noon sundayDone Ho).
Defined.

(** The history of four completions, recomputed at noon and two days on. *)
Lemma recompute_later_witness :
  currentStreak (recalculateStatsFromHistory initialStats history (daysLater 2))
  = 0 \/
  currentStreak (recalculateStatsFromHistory initialStats history (daysLater 2))
  = currentStreak (recalculateStatsFromHistory initialStats history noon).
Proof.
  assert (Hle : noon <= daysLater 2) by (unfold daysLater, noon, msPerDay; lia).
  destruct (recompute_later (rt := utc) initialStats history noon (daysLater 2)
              Hle) as (_ & _ & _ & [H|H] & _); [right|left]; exact H.
Defined.

Lemma history_dated : Forall dated (filter isCompleted history).
Proof. repeat constructor. Qed.

Lemma historyTimes_sorted :
  Permutation historyTimes (map timeKey (filter isCompleted history)) /\
  StronglySorted Z.le historyTimes.
Proof.
  split; [vm_compute; apply Permutation_refl|].
  unfold historyTimes. repeat constructor; lia.
Qed.

Lemma historyRuns_runningOver : runningOver historyTimes historyRuns.
Proof.
  unfold runningOver. split; [reflexivity|]. split; [reflexivity|].
  intros i g Hi Hg.
  unfold nearestDays, msPerDay, historyTimes, historyRuns in *.
  destruct i as [|[|[|i]]]; cbn [nth List.length] in *;
    repeat split; intros; lia.
Qed.

(** The walk over four completions on three days. *)
Lemma recompute_walk_by_day_gaps_witness :
  exists runs candidate,
    runningOver historyTimes runs /\
    (forall runs', runningOver historyTimes runs' -> runs' = runs) /\
    In candidate runs /\
    Forall (fun r => r <= candidate) runs /\
    longestStreak (recalculateStatsFromHistory initialStats history noon) =
      Z.max (longestStreak initialStats) candidate.
Proof.
  apply (recompute_walk_by_day_gaps (rt := utc) initialStats history noon
           historyTimes history_dated
           (proj1 historyTimes_sorted) (proj2 historyTimes_sorted)).
  discriminate.
Defined.

(** The recomputation over the same history, at noon of its last day:
    of the two completions of Monday, D is the last in the store. *)
Lemma recompute_current_and_last_witness :
  let r := recalculateStatsFromHistory initialStats history noon in
  currentStreak r = last historyRuns 0 /\
  lastCompletedDate r = Some "Mon Nov 02 2026"%string.
Proof.
  assert (Hb : Forall (fun q => timeKey q <=
                         timeKey (problemD true (Some "Mon Nov 02 2026"%string)))
                 [problemA true (Some "Fri Oct 30 2026"%string);
                  problemB true (Some "Sat Oct 31 2026"%string);
                  problemC true (Some "Mon Nov 02 2026"%string)])
    by (repeat constructor; vm_compute; discriminate).
  assert (Hg : wholeDays
                 (noon - timeKey (problemD true (Some "Mon Nov 02 2026"%string)))
                 0)
    by (vm_compute; split; [discriminate|reflexivity]).
  assert (Ef : filter isCompleted history =
               [problemA true (Some "Fri Oct 30 2026"%string);
                problemB true (Some "Sat Oct 31 2026"%string);
                problemC true (Some "Mon Nov 02 2026"%string)]
               ++ problemD true (Some "Mon Nov 02 2026"%string) :: [])
    by reflexivity.
  pose proof (recompute_current_and_last (rt := utc) initialStats history noon
                _ [] (problemD true (Some "Mon Nov 02 2026"%string))
                historyTimes historyRuns 0 history_dated Ef Hb
                (Forall_nil _)
                (proj1 historyTimes_sorted) (proj2 historyTimes_sorted)
                historyRuns_runningOver Hg) as H.
  split; [apply H; lia|apply H].
Defined.

(** Marking B on Monday, the clock read at noon and a second later,
    with Stats recomputed on Sunday morning. *)
Lemma incremental_matches_recompute_witness :
  let st' := markComplete idB noon (noon + 1000) sundayDone in
  stats st' =
  recalculateStatsFromHistory (stats sundayDone) (problems st') noon.
Proof.
  apply (incremental_matches_recompute (rt := utc) (host_regular 0)
           idB noon (noon + 1000) sundayMorning initialStats sundayDone).
  - unfold inWindow, noon. lia.
  - unfold inWindow, noon. lia.
  - unfold inWindow, noon, msPerDay. lia.
  - reflexivity.
  - unfold noon, sundayMorning. lia.
  - reflexivity.
  - repeat constructor; intros H; try reflexivity; discriminate H.
  - repeat constructor; intros H; try discriminate H.
    exists 1793491200000. unfold inWindow, sundayMorning.
    split; [lia|]. split; [lia|reflexivity].
  - reflexivity.
Defined.

(** Marking B on Monday after A on Sunday. *)
Lemma markComplete_streak_by_calendar_day_witness :
  currentStreak (stats (markComplete idB noon (noon + 1) sundayDone)) =
  currentStreak (stats sundayDone) + 1.
Proof.
  assert (W1 : inWindow 0 noon) by (unfold inWindow, noon; lia).
  assert (W2 : inWindow 0 (noon + 1)) by (unfold inWindow, noon; lia).
  assert (W3 : inWindow 0 (noon + 1 - msPerDay))
    by (unfold inWindow, noon, msPerDay; lia).
  assert (W4 : inWindow 0 sundayMorning)
    by (unfold inWindow, sundayMorning; lia).
  apply (proj2 (proj2 (markComplete_streak_by_calendar_day (rt := utc)
                         (host_regular 0) idB noon (noon + 1) sundayDone
                         W1 W2 W3)) eq_refl sundayMorning W4 eq_refl).
  reflexivity.
Defined.

(** The history recomputed on the day of its last completion. *)
Lemma recompute_lapse_by_calendar_day_witness :
  1 <= currentStreak (recalculateStatsFromHistory initialStats history noon).
Proof.
  assert (Hin : In (problemC true (Some "Mon Nov 02 2026"%string))
                  (filter isCompleted history))
    by (vm_compute; auto).
  assert (Hmax : Forall (fun q => timeKey q <=
                           timeKey (problemC true (Some "Mon Nov 02 2026"%string)))
                   (filter isCompleted history))
    by (repeat constructor; vm_compute; discriminate).
  assert (W : inWindow 0 noon) by (unfold inWindow, noon; lia).
  apply (proj2 (recompute_lapse_by_calendar_day (rt := utc) (host_regular 0)
                  initialStats history noon noon
                  (problemC true (Some "Mon Nov 02 2026"%string))
                  history_dated Hin Hmax W eq_refl)).
  vm_compute. reflexivity.
Defined.

(** Marking B with midnight between the two readings of the clock,
    after A on Sunday: a streak of 1, where the recomputation has 2. *)
Lemma incremental_differs_across_midnight_witness :
  let st' := markComplete idB beforeMidnight atMidnight sundayDone in
  currentStreak (stats st') = 1 /\
  currentStreak
    (recalculateStatsFromHistory (stats sundayDone) (problems st')
       beforeMidnight) = currentStreak (stats sundayDone) + 1.
Proof.
  assert (W1 : inWindow 0 beforeMidnight)
    by (unfold inWindow, beforeMidnight; lia).
  assert (W2 : inWindow 0 atMidnight) by (unfold inWindow, atMidnight; lia).
  assert (W3 : inWindow 0 (atMidnight - msPerDay))
    by (unfold inWindow, atMidnight, msPerDay; lia).
  assert (W4 : inWindow 0 sundayMorning)
    by (unfold inWindow, sundayMorning; lia).
  assert (Hle : sundayMorning <= beforeMidnight)
    by (unfold sundayMorning, beforeMidnight; lia).
  assert (Hopen : notYetCompleted idB (problems sundayDone))
    by (repeat constructor; intros H; try reflexivity; discriminate H).
  assert (Hrec : recordedBy 0 sundayMorning (problems sundayDone)).
  { repeat constructor; intros H; try discriminate H.
    exists 1793491200000. unfold inWindow, sundayMorning.
    split; [lia|]. split; [lia|reflexivity]. }
  assert (Hnext : localDay 0 atMidnight = localDay 0 beforeMidnight + 1)
    by reflexivity.
  assert (Hone : occurrences idB (problems sundayDone) = 1%nat)
    by reflexivity.
  assert (Hs : stats sundayDone =
               recalculateStatsFromHistory initialStats (problems sundayDone)
                 sundayMorning) by reflexivity.
  assert (Hl : lastCompletedDate (stats sundayDone) =
               Some (toDateString sundayMorning)) by reflexivity.
  assert (Hday : localDay 0 sundayMorning = localDay 0 beforeMidnight - 1)
    by reflexivity.
  destruct (proj1 (incremental_differs_across_midnight (rt := utc)
                     (host_regular 0) idB beforeMidnight atMidnight
                     sundayMorning initialStats sundayDone sundayMorning
                     W1 W2 W3 Hnext Hle Hone Hopen Hrec Hs W4 Hl) Hday)
    as (H1 & H2 & _).
  split; assumption.
Defined.

(** A on Monday, B on Tuesday and C on Wednesday, from zeroed Stats. *)
Lemma streak_grows_a_day_at_a_time_witness :
  currentStreak (stats (run (markComplete idA noon noon threeOpen) dailyOps)) =
  1 + Z.of_nat (List.length dailyOps).
Proof.
  assert (W : inWindow 0 noon) by (unfold inWindow, noon; lia).
  assert (Hd : markedDaily 0 (localDay 0 noon) dailyOps).
  { cbn [markedDaily dailyOps]. unfold inWindow.
    repeat split; try (vm_compute; congruence). }
  apply (streak_grows_a_day_at_a_time (rt := utc) (host_regular 0)
           idA noon noon threeOpen dailyOps W Hd).
  reflexivity.
Defined.

(** The history of four completions, and the same in reverse order. *)
Lemma recompute_ignores_store_order_witness :
  currentStreak (recalculateStatsFromHistory initialStats history noon) =
  currentStreak (recalculateStatsFromHistory initialStats (rev history) noon).
Proof.
  assert (Hd : Forall dated (filter isCompleted history))
    by (repeat constructor).
  apply (recompute_ignores_store_order (rt := utc) initialStats history
           (rev history) noon (Permutation_rev history) Hd).
Defined.

(** After B is marked at noon, the render of the evening. *)
Lemma markComplete_closes_the_day_witness :
  mainContent (markComplete idB noon noon sundayDone) evening =
  PotdDoneForTodayCard.
Proof.
  assert (Hne : problems sundayDone <> []) by discriminate.
  apply (markComplete_closes_the_day (rt := utc) idB noon noon evening
           sundayDone Hne eq_refl).
Defined.

Lemma clicks_onScreen : onScreen threeOpen (clicks ++ [lastClick]).
Proof. vm_compute. intuition. Qed.

(** Three clicks on three open problems. *)
Lemma session_keeps_count_witness :
  totalCompleted (stats (session threeOpen clicks)) =
  Z.of_nat (List.length (completedProblems (session threeOpen clicks))).
Proof.
  assert (Hs : onScreen threeOpen clicks) by (vm_compute; intuition).
  apply (session_keeps_count (rt := utc) clicks (DateString_nonempty 0)
           threeOpen threeOpen_countKept Hs).
Defined.

(** The same session, and a mark on Wednesday after it. *)
Lemma session_keeps_stats_recomputed_witness :
  recompute (clickedAt lastClick) (click (session threeOpen clicks) lastClick)
  = click (session threeOpen clicks) lastClick.
Proof.
  assert (Hnd : NoDup (map id (problems threeOpen)))
    by apply threeOpen_countKept.
  assert (Ht : timely 0 noon (clicks ++ [lastClick])).
  { cbn [timely clicks lastClick app button clickedAt clickedAt'].
    unfold inWindow. repeat split; try (vm_compute; congruence). }
  apply (session_keeps_stats_recomputed (rt := utc) (host_regular 0) clicks
           threeOpen noon lastClick Hnd threeOpen_upToDate
           clicks_onScreen Ht).
Defined.

(** The pasted text parses to three problems; the second has no title
    of its own and the third no link. *)
Example parseProblems_pasted :
  map (fun p => (title p, url p, platform p))
    (parseProblems (fun _ => 1793500000000) pasted) =
  [("Two Sum", "https://leetcode.com/problems/two-sum/", "LeetCode");
   ("Problem 2", "https://codeforces.com/problem/1/A", "Codeforces");
   ("warm up", "", "Unknown")]%string.
Proof. reflexivity. Qed.
